(** * ratelimit: a shallow embedding of [ratelimit/ratelimit.go]

    The Go package meters an HTTP API against per-second, per-hour and
    per-month quotas kept as counters in a Redis store.  This file embeds the
    request pipeline ([rateLimitRequest], [postRateLimit], [HttpMiddleware]),
    the limits refresher ([updateRateLimits]), route derivation ([getRoute])
    and the deletion loop of the stats scanner ([updateStats]) as executable
    Rocq functions, and states the properties of the specification about them.

    Conventions.
    - Go [int64] values are [Z]; arithmetic that can leave the 64-bit range is
      wrapped with [wrap64].
    - [time.Time] is the number of nanoseconds since the Unix epoch, in UTC.
    - Go maps are [gmap]s; pointers to [RateLimit] records are indices into an
      explicit heap, so that aliasing of package-level pointers is visible.
    - A panic is an explicit outcome, never an absent result. *)

From stdpp Require Import base numbers option list strings pretty gmap.
From Stdlib Require Import ZArith Lia Ascii.

Local Open Scope string_scope.
Local Open Scope list_scope.
Local Open Scope Z_scope.

(** ** Machine integers *)

Definition min_int64 : Z := - 2 ^ 63.
Definition max_int64 : Z := 2 ^ 63 - 1.

Definition in_int64 (z : Z) : bool := (min_int64 <=? z) && (z <=? max_int64).

(** Two's complement wrap-around of Go's [int64] arithmetic. *)
Definition wrap64 (z : Z) : Z := (z + 2 ^ 63) mod 2 ^ 64 - 2 ^ 63.

Definition sub64 (a b : Z) : Z := wrap64 (a - b).

(** ** Strings and [fmt] verbs *)

(** [strings.ReplaceAll(s, old, new)] for one-character [old] and [new]. *)
Fixpoint replaceAllChar (old new : ascii) (s : string) : string :=
  match s with
  | EmptyString => EmptyString
  | String c rest =>
      String (if Ascii.eqb c old then new else c) (replaceAllChar old new rest)
  end.

(** [strings.Split(s, sep)] for a one-character separator: the pieces between
    separators, in order; a string without separator gives one piece. *)
Fixpoint splitChar_go (sep : ascii) (cur : string) (s : string) : list string :=
  match s with
  | EmptyString => [String.rev cur]
  | String c rest =>
      if Ascii.eqb c sep then String.rev cur :: splitChar_go sep "" rest
      else splitChar_go sep (String c cur) rest
  end.

Definition splitChar (sep : ascii) (s : string) : list string :=
  splitChar_go sep "" s.

Definition hasPrefix (s p : string) : bool := String.prefix p s.

(** [%d] on an integer. *)
Definition fmt_d (z : Z) : string := pretty z.

Fixpoint zeros (n : nat) : string :=
  match n with O => "" | S n' => String "0" (zeros n') end.

(** [%0wd]: zero padding to width [w]; the sign counts towards the width and
    stays in front of the padding. *)
Definition fmt_0d (w : nat) (z : Z) : string :=
  let digits := pretty (Z.abs z) in
  if z <? 0 then "-" +:+ zeros (w - 1 - String.length digits) +:+ digits
  else zeros (w - String.length digits) +:+ digits.

(** [%s] applied to an [int64] operand.  The verb does not apply to integers,
    and [fmt] prints its bad-verb form instead:
    [%!s(int64=<decimal value>)]. *)
Definition fmt_s_int64 (z : Z) : string :=
  "%!s(int64=" +:+ pretty z +:+ ")".


(** ** [time]: instants, durations and the civil calendar

    An instant is the number of nanoseconds since 1970-01-01T00:00:00Z.  The
    calendar fields ([Year], [Month], [Day], [Hour] of a UTC instant) and
    [Date] are the proleptic Gregorian calendar of Go's [time] package,
    computed era by era (an era is 400 years, 146097 days, starting on
    1 March). *)
Module time.

Definition Time := Z.
Definition Duration := Z.

Definition Nanosecond : Duration := 1.
Definition Millisecond : Duration := 1000000.
Definition Second : Duration := 1000000000.
Definition Minute : Duration := 60 * Second.
Definition Hour : Duration := 3600 * Second.

Definition secondsPerDay : Z := 86400.

(** [t.Unix()] *)
Definition Unix (t : Time) : Z := t / Second.

(** [time.Unix(sec, 0)] *)
Definition FromUnix (sec : Z) : Time := sec * Second.

Definition unixDay (t : Time) : Z := Unix t / secondsPerDay.

(** Day number (days since the epoch) of the civil date [y-m-d]. *)
Definition days_from_civil (y m d : Z) : Z :=
  let y' := if m <=? 2 then y - 1 else y in
  let era := y' / 400 in
  let yoe := y' - era * 400 in
  let mp := if 2 <? m then m - 3 else m + 9 in
  let doy := (153 * mp + 2) / 5 + d - 1 in
  let doe := yoe * 365 + yoe / 4 - yoe / 100 + doy in
  era * 146097 + doe - 719468.

(** Civil date (year, month, day) of a day number. *)
Definition civil_from_days (z : Z) : Z * Z * Z :=
  let z' := z + 719468 in
  let era := z' / 146097 in
  let doe := z' - era * 146097 in
  let yoe := (doe - doe / 1460 + doe / 36524 - doe / 146096) / 365 in
  let doy := doe - (365 * yoe + yoe / 4 - yoe / 100) in
  let mp := (5 * doy + 2) / 153 in
  let d := doy - (153 * mp + 2) / 5 + 1 in
  let m := if mp <? 10 then mp + 3 else mp - 9 in
  (yoe + era * 400 + (if m <=? 2 then 1 else 0), m, d).

Definition Year (t : Time) : Z := fst (fst (civil_from_days (unixDay t))).
Definition Month (t : Time) : Z := snd (fst (civil_from_days (unixDay t))).
Definition Day (t : Time) : Z := snd (civil_from_days (unixDay t)).
Definition HourOfDay (t : Time) : Z := (Unix t mod secondsPerDay) / 3600.

(** [time.Date(year, month, day, 0, 0, 0, 0, time.UTC)].  A month outside
    1..12 is normalised into the year, as Go does; days beyond the month
    carry over because the day number is linear in [day]. *)
Definition Date (year month day : Z) : Time :=
  let m0 := month - 1 in
  let year' := year + m0 / 12 in
  let month' := m0 mod 12 + 1 in
  FromUnix (days_from_civil year' month' day * secondsPerDay).

(** [t.Truncate(d)] for a [d] that divides a day (rounding down to a
    multiple of [d] since the zero time coincides with rounding down since
    the epoch). *)
Definition Truncate (t : Time) (d : Duration) : Time := t - t mod d.

Definition Add (t : Time) (d : Duration) : Time := t + d.
Definition Sub (t u : Time) : Duration := t - u.
Definition Before (t u : Time) : bool := t <? u.
Definition After (t u : Time) : bool := u <? t.

(** [int64(d.Seconds())]: the float conversion truncates towards zero; for
    durations of at most a few months the float is exact to well below a
    nanosecond, so the result is the integer quotient. *)
Definition SecondsInt64 (d : Duration) : Z := Z.quot d Second.

(** The day number of the first day of the month after the one [z] falls
    in, as [Date] computes it from the year and the month of [z]. *)
Definition nextMonthDay (z : Z) : Z :=
  let '(y, m, _) := civil_from_days z in
  days_from_civil (y + m / 12) (m mod 12 + 1) 1.

End time.

(** ** Outcomes of Go calls

    A call returns a value, returns a non-nil [error], or panics. *)
Inductive result (A : Type) : Type :=
| Val (a : A)
| Error (e : string)
| Panic (msg : string).
Arguments Val {A} a.
Arguments Error {A} e.
Arguments Panic {A} msg.

(** ** The shared counter store

    Counters live in a Redis-compatible store.  An entry is an integer with
    an optional absolute expiry; an entry whose expiry has passed is absent
    for every command.  The commands are the ones the package pipelines. *)
Module redis.

Record Entry := { val : Z; expire : option time.Time }.

Inductive Cmd :=
| IncrBy (key : string) (n : Z)
| Incr (key : string)
| DecrBy (key : string) (n : Z)
| ExpireNX (key : string) (d : time.Duration)
| ExpireAt (key : string) (t : time.Time).

Inductive Reply :=
| IntReply (v : Z)
| ErrReply (msg : string).

(** The entry under [k] as the server sees it at instant [now]. *)
Definition live (now : time.Time) (s : gmap string Entry) (k : string)
  : option Entry :=
  match s !! k with
  | Some e =>
      match expire e with
      | Some t => if t <=? now then None else Some e
      | None => Some e
      end
  | None => None
  end.

(** The value a client would read: an absent counter counts as 0. *)
Definition counter (now : time.Time) (s : gmap string Entry) (k : string) : Z :=
  match live now s k with Some e => val e | None => 0 end.

Definition overflow_msg : string := "ERR increment or decrement would overflow".

(** INCRBY: an absent key starts from 0 without expiry; the expiry of a
    present key is kept; a result outside the signed 64-bit range is refused
    and leaves the key as it was. *)
Definition incrby (now : time.Time) (s : gmap string Entry) (k : string) (n : Z)
  : gmap string Entry * Reply :=
  let old := live now s k in
  let v := match old with Some e => val e | None => 0 end in
  let ttl := match old with Some e => expire e | None => None end in
  if in_int64 (v + n)
  then (<[k := {| val := v + n; expire := ttl |}]> s, IntReply (v + n))
  else (s, ErrReply overflow_msg).

(** Set the expiry of a live key to the absolute instant [t]; an instant that
    is not in the future removes the key. *)
Definition set_expiry (now : time.Time) (s : gmap string Entry) (k : string)
  (e : Entry) (t : time.Time) : gmap string Entry :=
  if t <=? now then delete k s
  else <[k := {| val := val e; expire := Some t |}]> s.

Definition exec_cmd (now : time.Time) (s : gmap string Entry) (c : Cmd)
  : gmap string Entry * Reply :=
  match c with
  | IncrBy k n => incrby now s k n
  | Incr k => incrby now s k 1
  | DecrBy k n =>
      if n =? min_int64 then (s, ErrReply overflow_msg)
      else incrby now s k (- n)
  | ExpireNX k d =>
      (* EXPIRE k <whole seconds of d> NX *)
      match live now s k with
      | Some e =>
          match expire e with
          | None =>
              (set_expiry now s k e (now + (d / time.Second) * time.Second),
               IntReply 1)
          | Some _ => (s, IntReply 0)
          end
      | None => (s, IntReply 0)
      end
  | ExpireAt k t =>
      (* EXPIREAT k <t.Unix()> *)
      match live now s k with
      | Some e => (set_expiry now s k e (time.FromUnix (time.Unix t)), IntReply 1)
      | None => (s, IntReply 0)
      end
  end.

(** The key a command works on. *)
Definition cmdKey (c : Cmd) : string :=
  match c with
  | IncrBy k _ | Incr k | DecrBy k _ | ExpireNX k _ | ExpireAt k _ => k
  end.

(** The commands of a pipeline run in order. *)
Fixpoint run (now : time.Time) (s : gmap string Entry) (cmds : list Cmd)
  : gmap string Entry * list Reply :=
  match cmds with
  | [] => (s, [])
  | c :: cs =>
      let '(s1, r) := exec_cmd now s c in
      let '(s2, rs) := run now s1 cs in
      (s2, r :: rs)
  end.

(** The fate of one round-trip: it goes through, or the connection (or the
    context of the caller) is lost after the server ran the first [n]
    commands. *)
Inductive Conn :=
| Healthy
| BrokenAfter (n : nat).

Fixpoint firstErr (rs : list Reply) : option string :=
  match rs with
  | [] => None
  | ErrReply m :: _ => Some m
  | IntReply _ :: rs' => firstErr rs'
  end.

(** [pipe.Exec(ctx)]: the store afterwards, the replies, and the error
    returned, which is the first failed command or the lost connection. *)
Definition Exec (now : time.Time) (conn : Conn) (s : gmap string Entry)
  (cmds : list Cmd) : gmap string Entry * list Reply * option string :=
  match conn with
  | Healthy =>
      let '(s', rs) := run now s cmds in (s', rs, firstErr rs)
  | BrokenAfter n =>
      let '(s', _) := run now s (take n cmds) in
      (s', [], Some "redis: connection lost or context done")
  end.

(** [cmd.Val()] of the [i]-th command of an executed pipeline. *)
Definition intVal (rs : list Reply) (i : nat) : Z :=
  match rs !! i with
  | Some (IntReply v) => v
  | _ => 0
  end.

End redis.

(** ** Reference tables

    [RateLimit] records are shared through pointers: the interning map and
    the per-user map hold pointers, and so do the package-level variables
    [NoKeyRateLimit] and [FreeRatelimit].  The heap maps a pointer (an index)
    to the record it points at; writing through a pointer updates the heap
    in place. *)

Record RateLimit := { Second : Z; Hour : Z; Month : Z }.

Definition ptr := nat.

Record State := {
  heap : list RateLimit;
  NoKeyRateLimit : ptr;
  FreeRatelimit : ptr;
  rateLimits : gmap string ptr;          (* "s/h/m" -> record *)
  rateLimitsByUserId : gmap Z ptr;
  userIdByApiKey : gmap string Z;
  lastRateLimitUpdateKeys : time.Time;
  lastRateLimitUpdateRateLimits : time.Time;
  weights : gmap string Z;
  buckets : gmap string string;
}.

Definition DefaultRateLimitSecond : Z := 2.
Definition DefaultRateLimitHour : Z := 500.
Definition DefaultRateLimitMonth : Z := 0.
Definition FallbackRateLimitSecond : Z := 20.
Definition FallbackRateLimitBurst : Z := 20.
Definition defaultBucket : string := "default".

(** The package-level variables as the program starts:
    [var NoKeyRateLimit = &RateLimit{...}] allocates one record, and
    [var FreeRatelimit = NoKeyRateLimit] copies the pointer. *)
Definition initState : State :=
  let NoKey := 0%nat in
  {| heap := [ {| Second := DefaultRateLimitSecond;
                  Hour := DefaultRateLimitHour;
                  Month := DefaultRateLimitMonth |} ];
     NoKeyRateLimit := NoKey;
     FreeRatelimit := NoKey;
     rateLimits := ∅;
     rateLimitsByUserId := ∅;
     userIdByApiKey := ∅;
     lastRateLimitUpdateKeys := time.FromUnix 0;
     lastRateLimitUpdateRateLimits := time.FromUnix 0;
     weights := ∅;
     buckets := ∅ |}.

(** [*p]; every pointer the package holds is allocated, the default is never
    read in a state reached from [initState]. *)
Definition load (h : list RateLimit) (p : ptr) : RateLimit :=
  match h !! p with
  | Some rl => rl
  | None => {| Second := 0; Hour := 0; Month := 0 |}
  end.

(** [p.Second = s; p.Hour = h; p.Month = m] *)
Definition storeFields (h : list RateLimit) (p : ptr) (s hr m : Z)
  : list RateLimit :=
  <[p := {| Second := s; Hour := hr; Month := m |}]> h.

(** [&RateLimit{...}]: a fresh record at the end of the heap. *)
Definition alloc (h : list RateLimit) (rl : RateLimit) : list RateLimit * ptr :=
  (h ++ [rl], length h).

Definition with_heap (st : State) (h : list RateLimit) : State :=
  {| heap := h;
     NoKeyRateLimit := NoKeyRateLimit st;
     FreeRatelimit := FreeRatelimit st;
     rateLimits := rateLimits st;
     rateLimitsByUserId := rateLimitsByUserId st;
     userIdByApiKey := userIdByApiKey st;
     lastRateLimitUpdateKeys := lastRateLimitUpdateKeys st;
     lastRateLimitUpdateRateLimits := lastRateLimitUpdateRateLimits st;
     weights := weights st;
     buckets := buckets st |}.

Definition with_userIdByApiKey (st : State) (m : gmap string Z) : State :=
  {| heap := heap st;
     NoKeyRateLimit := NoKeyRateLimit st;
     FreeRatelimit := FreeRatelimit st;
     rateLimits := rateLimits st;
     rateLimitsByUserId := rateLimitsByUserId st;
     userIdByApiKey := m;
     lastRateLimitUpdateKeys := lastRateLimitUpdateKeys st;
     lastRateLimitUpdateRateLimits := lastRateLimitUpdateRateLimits st;
     weights := weights st;
     buckets := buckets st |}.

Definition with_limits (st : State) (h : list RateLimit)
  (interned : gmap string ptr) (byUser : gmap Z ptr) : State :=
  {| heap := h;
     NoKeyRateLimit := NoKeyRateLimit st;
     FreeRatelimit := FreeRatelimit st;
     rateLimits := interned;
     rateLimitsByUserId := byUser;
     userIdByApiKey := userIdByApiKey st;
     lastRateLimitUpdateKeys := lastRateLimitUpdateKeys st;
     lastRateLimitUpdateRateLimits := lastRateLimitUpdateRateLimits st;
     weights := weights st;
     buckets := buckets st |}.

Definition with_watermarks (st : State) (tKeys tRateLimits : time.Time) : State :=
  {| heap := heap st;
     NoKeyRateLimit := NoKeyRateLimit st;
     FreeRatelimit := FreeRatelimit st;
     rateLimits := rateLimits st;
     rateLimitsByUserId := rateLimitsByUserId st;
     userIdByApiKey := userIdByApiKey st;
     lastRateLimitUpdateKeys := tKeys;
     lastRateLimitUpdateRateLimits := tRateLimits;
     weights := weights st;
     buckets := buckets st |}.

(** ** The limits refresher, [updateRateLimits] *)

(** Rows of [api_keys], [api_ratelimits] and [api_products]. *)
Record ApiKeyRow := {
  key_UserID : Z;
  key_ApiKey : string;
  key_ValidUntil : time.Time;
  key_ChangedAt : time.Time;
}.

Record RateLimitRow := {
  row_UserID : Z;
  row_Second : Z;
  row_Hour : Z;
  row_Month : Z;
  row_ValidUntil : time.Time;
  row_ChangedAt : time.Time;
}.

Record ApiProduct := {
  Name : string;
  StripePriceID : string;
  ap_Second : Z;
  ap_Hour : Z;
  ap_Month : Z;
  ValidFrom : time.Time;
}.

(** What the relational store answers during one run of the refresher, in
    the order the run asks; a later answer is only consulted when the earlier
    calls succeeded. *)
Record DbRun := {
  db_Beginx : option string;                      (* error of Beginx *)
  db_api_keys : string + list ApiKeyRow;          (* first tx.Select *)
  db_api_ratelimits : string + list RateLimitRow; (* second tx.Select *)
  db_Commit : option string;                      (* error of tx.Commit *)
  db_products : string + list ApiProduct;         (* DBGetCurrentApiProducts *)
  db_now : time.Time;                             (* time.Now() under the lock *)
}.

(** Body of the loop over the products. *)
Definition applyProduct (st : State) (p : ApiProduct) : State :=
  let st1 :=
    if String.eqb (Name p) "nokey"
    then with_heap st (storeFields (heap st) (NoKeyRateLimit st)
                         (ap_Second p) (ap_Hour p) (ap_Month p))
    else st in
  if String.eqb (Name p) "free"
  then with_heap st1 (storeFields (heap st1) (FreeRatelimit st1)
                        (ap_Second p) (ap_Hour p) (ap_Month p))
  else st1.

(** Body of the loop over the key rows, on the local watermark and the key
    table. *)
Definition applyKeyRow (now : time.Time) (acc : time.Time * gmap string Z)
  (dbKey : ApiKeyRow) : time.Time * gmap string Z :=
  let '(lastTKeys, byKey) := acc in
  let lastTKeys :=
    if time.After (key_ChangedAt dbKey) lastTKeys
    then key_ChangedAt dbKey else lastTKeys in
  if time.Before (key_ValidUntil dbKey) now
  then (lastTKeys, delete (key_ApiKey dbKey) byKey)
  else (lastTKeys, <[key_ApiKey dbKey := key_UserID dbKey]> byKey).

(** Body of the loop over the quota rows, on the local watermark, the heap,
    the interning map and the per-user map. *)
Definition applyRateLimitRow (now : time.Time)
  (acc : time.Time * list RateLimit * gmap string ptr * gmap Z ptr)
  (dbRl : RateLimitRow)
  : time.Time * list RateLimit * gmap string ptr * gmap Z ptr :=
  let '(lastTRateLimits, h, interned, byUser) := acc in
  let lastTRateLimits :=
    if time.After (row_ChangedAt dbRl) lastTRateLimits
    then row_ChangedAt dbRl else lastTRateLimits in
  if time.Before (row_ValidUntil dbRl) now
  then (lastTRateLimits, h, interned, delete (row_UserID dbRl) byUser)
  else
    (* fmt.Sprintf("%d/%d/%d", dbRl.Second, dbRl.Hour, dbRl.Month) *)
    let rlStr := fmt_d (row_Second dbRl) +:+ "/" +:+ fmt_d (row_Hour dbRl)
                 +:+ "/" +:+ fmt_d (row_Month dbRl) in
    match interned !! rlStr with
    | Some rl =>
        (lastTRateLimits, h, interned, <[row_UserID dbRl := rl]> byUser)
    | None =>
        let '(h', rl) := alloc h {| Second := row_Second dbRl;
                                    Hour := row_Hour dbRl;
                                    Month := row_Month dbRl |} in
        (lastTRateLimits, h', <[rlStr := rl]> interned,
         <[row_UserID dbRl := rl]> byUser)
    end.

(** [updateRateLimits]: the state afterwards and the error returned.  The
    metrics observation and the locks have no effect on the tables. *)
Definition updateRateLimits (db : DbRun) (st : State) : State * option string :=
  let lastTKeys := lastRateLimitUpdateKeys st in
  let lastTRateLimits := lastRateLimitUpdateRateLimits st in
  match db_Beginx db with
  | Some err => (st, Some err)
  | None =>
  match db_api_keys db with
  | inl err => (st, Some ("error getting api_keys: " +:+ err))
  | inr dbApiKeys =>
  match db_api_ratelimits db with
  | inl err => (st, Some ("error getting api_ratelimits: " +:+ err))
  | inr dbRateLimits =>
  match db_Commit db with
  | Some err => (st, Some err)
  | None =>
  match db_products db with
  | inl err => (st, Some err)
  | inr dbApiProducts =>
      let now := db_now db in
      let st1 := fold_left applyProduct dbApiProducts st in
      let '(lastTKeys, byKey) :=
        fold_left (applyKeyRow now) dbApiKeys (lastTKeys, userIdByApiKey st1) in
      let st2 := with_userIdByApiKey st1 byKey in
      let '(lastTRateLimits, h, interned, byUser) :=
        fold_left (applyRateLimitRow now) dbRateLimits
          (lastTRateLimits, heap st2, rateLimits st2, rateLimitsByUserId st2) in
      let st3 := with_limits st2 h interned byUser in
      (with_watermarks st3 lastTKeys lastTRateLimits, None)
  end end end end end.

(** The tables after a sequence of runs of the refresher, oldest first. *)
Definition refreshAll (runs : list DbRun) (st : State) : State :=
  fold_left (fun s db => fst (updateRateLimits db s)) runs st.

(** ** Requests, routes and external libraries *)

(** A [*mux.Route] as far as [GetPathTemplate] reads it: the build error of
    the route and the template of its path matcher. *)
Record MuxRoute := {
  route_err : option string;
  route_pathTemplate : option string;
}.

Record URL := {
  Path : string;
  Query : gmap string string;    (* first value of each query parameter *)
}.

Record Request := {
  req_URL : URL;
  req_Header : gmap string string;       (* first value of each header *)
  req_RemoteAddr : string;
  req_CurrentRoute : option MuxRoute;    (* mux.CurrentRoute(r); None is nil *)
}.

(** [r.Header.Get(name)] and [r.URL.Query().Get(name)]: the empty string when
    absent. *)
Definition Header_Get (r : Request) (name : string) : string :=
  default "" (req_Header r !! name).

Definition Query_Get (r : Request) (name : string) : string :=
  default "" (Query (req_URL r) !! name).

(** The functions of [net] and [golang.org/x/time/rate] the package calls.
    They are not part of the package; the development is parametric in
    them. *)
Class ExternalLibs := {
  (* net.ParseIP(s) followed by String() on a non-nil result *)
  ParseIP : string -> option string;
  (* net.SplitHostPort(s); None when it returns an error *)
  SplitHostPort : string -> option (string * string);
  (* *rate.Limiter, rate.NewLimiter(r, b) and Allow() at an instant *)
  Limiter : Type;
  NewLimiter : Z -> Z -> Limiter;
  Allow : Limiter -> time.Time -> bool * Limiter;
}.

Section Derivation.
Context `{ExternalLibs}.

(** [getIP] *)
Definition getIP (r : Request) : string :=
  let ips := Header_Get r "CF-Connecting-IP" in
  let ips := if String.eqb ips "" then Header_Get r "X-Forwarded-For" else ips in
  let splitIps := splitChar "," ips in
  match (if (0 <? length splitIps)%nat
         then ParseIP (List.last splitIps "") else None) with
  | Some netIP => netIP
  | None =>
      match SplitHostPort (req_RemoteAddr r) with
      | None => "INVALID"
      | Some (ip, _) =>
          match ParseIP ip with
          | Some ip => if String.eqb ip "::1" then "127.0.0.1" else ip
          | None => "INVALID"
          end
      end
  end.

(** [getKey] *)
Definition getKey (r : Request) : string * string :=
  let ip := getIP r in
  let key := Query_Get r "apikey" in
  if negb (String.eqb key "") then (key, ip)
  else
    let key := Header_Get r "X-API-KEY" in
    if negb (String.eqb key "") then (key, ip)
    else ("ip_" +:+ replaceAllChar ":" "_" ip, ip).

(** [GetPathTemplate], a method of [mux.Route] with a pointer receiver,
    reads the fields of its receiver without testing it for nil, so that the
    call on a nil route panics with a nil pointer dereference. *)
Definition GetPathTemplate (route : option MuxRoute) : result string :=
  match route with
  | None => Panic "runtime error: invalid memory address or nil pointer dereference"
  | Some rt =>
      match route_err rt with
      | Some e => Error e
      | None =>
          match route_pathTemplate rt with
          | None => Error "mux: route doesn't have a path"
          | Some tpl => Val tpl
          end
      end
  end.

(** [getRoute] *)
Definition getRoute (r : Request) : result string :=
  let route := req_CurrentRoute r in
  match GetPathTemplate route with
  | Panic m => Panic m
  | Error _ => Val "UNDEFINED"
  | Val pathTpl => Val pathTpl
  end.

(** [getWeight] *)
Definition getWeight (st : State) (r : Request) : result (Z * string * string) :=
  match getRoute r with
  | Panic m => Panic m
  | Error e => Error e
  | Val route =>
      let weight := match weights st !! route with Some w => w | None => 1 end in
      let bucket :=
        match buckets st !! route with Some b => b | None => defaultBucket end in
      Val (weight, route, bucket)
  end.

End Derivation.

(** ** The request pipeline *)

Definition SecondTimeWindow : string := "second".
Definition HourTimeWindow : string := "hour".
Definition MonthTimeWindow : string := "month".

Record RedisKey := { rk_Key : string; rk_ExpireAt : time.Time }.

Record RateLimitResult := {
  res_Time : time.Time;
  res_Weight : Z;
  res_Route : string;
  res_IP : string;
  res_Key : string;
  res_IsValidKey : bool;
  res_UserId : Z;
  res_RedisKeys : list RedisKey;
  res_RedisStatsKey : string;
  res_RateLimit : ptr;
  res_Limit : Z;
  res_Remaining : Z;
  res_Reset : Z;
  res_Bucket : string;
  res_Window : string;
}.

(** [res.Limit = l; res.Remaining = rem; res.Reset = rst; res.Window = w] *)
Definition setReport (res : RateLimitResult) (l rem rst : Z) (w : string)
  : RateLimitResult :=
  {| res_Time := res_Time res;
     res_Weight := res_Weight res;
     res_Route := res_Route res;
     res_IP := res_IP res;
     res_Key := res_Key res;
     res_IsValidKey := res_IsValidKey res;
     res_UserId := res_UserId res;
     res_RedisKeys := res_RedisKeys res;
     res_RedisStatsKey := res_RedisStatsKey res;
     res_RateLimit := res_RateLimit res;
     res_Limit := l;
     res_Remaining := rem;
     res_Reset := rst;
     res_Bucket := res_Bucket res;
     res_Window := w |}.

(** What one request observes of its surroundings: the two readings of the
    clock ([start] on entry and the later reading the hour anchor is taken
    from), the clock of the store when the pipeline runs there, and the fate
    of the round-trip. *)
Record Env := {
  env_start : time.Time;
  env_now : time.Time;
  env_redisNow : time.Time;
  env_conn : redis.Conn;
}.

(** The date stamps of the keys: [%04d-%02d-%02d-%02d] and [%04d-%02d]. *)
Definition hourStamp (t : time.Time) : string :=
  fmt_0d 4 (time.Year t) +:+ "-" +:+ fmt_0d 2 (time.Month t) +:+ "-"
  +:+ fmt_0d 2 (time.Day t) +:+ "-" +:+ fmt_0d 2 (time.HourOfDay t).

Definition monthStamp (t : time.Time) : string :=
  fmt_0d 4 (time.Year t) +:+ "-" +:+ fmt_0d 2 (time.Month t).

(** [fmt.Sprintf("ratelimit:second:%s:%s", res.Bucket, res.UserId)]; the
    second operand is the [int64] user id. *)
Definition rateLimitSecondKey (bucket : string) (userId : Z) : string :=
  "ratelimit:second:" +:+ bucket +:+ ":" +:+ fmt_s_int64 userId.

(** [fmt.Sprintf("ratelimit:hour:%04d-%02d-%02d-%02d:%s:%d", ...)] *)
Definition rateLimitHourKey (startUtc : time.Time) (bucket : string) (userId : Z)
  : string :=
  "ratelimit:hour:" +:+ hourStamp startUtc +:+ ":" +:+ bucket +:+ ":"
  +:+ fmt_d userId.

(** [fmt.Sprintf("ratelimit:month:%04d-%02d:%s:%d", ...)] *)
Definition rateLimitMonthKey (startUtc : time.Time) (bucket : string) (userId : Z)
  : string :=
  "ratelimit:month:" +:+ monthStamp startUtc +:+ ":" +:+ bucket +:+ ":"
  +:+ fmt_d userId.

(** [fmt.Sprintf("ratelimit:stats:%04d-%02d-%02d-%02d:%d:%s", ...)], with
    ["nokey"] in place of the user id when the key is not valid. *)
Definition statsKey (startUtc : time.Time) (isValidKey : bool) (userId : Z)
  (route : string) : string :=
  "ratelimit:stats:" +:+ hourStamp startUtc +:+ ":"
  +:+ (if isValidKey then fmt_d userId else "nokey") +:+ ":" +:+ route.

Definition nextHourUtc (env : Env) : time.Time :=
  time.Add (time.Truncate (env_now env) time.Hour) time.Hour.

Definition nextMonthUtc (env : Env) : time.Time :=
  let startUtc := env_start env in
  time.Date (time.Year startUtc) (time.Month startUtc + 1) 1.

(** The pipeline of [rateLimitRequest]: its commands in the order they are
    queued, the position of the INCRBY of each enforced window (a nil
    [*redis.IntCmd] is [None]), and the keys recorded in [res.RedisKeys]. *)
Record Charge := {
  ch_cmds : list redis.Cmd;
  ch_rateLimitSecond : option nat;
  ch_rateLimitHour : option nat;
  ch_rateLimitMonth : option nat;
  ch_RedisKeys : list RedisKey;
}.

Definition buildCharge (q : RateLimit) (env : Env) (weight : Z)
  (secondKey hourKey monthKey stats : string) : Charge :=
  let pipe : list redis.Cmd := [] in
  let keys : list RedisKey := [] in
  let '(pipe, rateLimitSecond) :=
    if 0 <? Second q
    then (pipe ++ [redis.IncrBy secondKey weight;
                   redis.ExpireNX secondKey time.Second],
          Some (length pipe))
    else (pipe, None) in
  let '(pipe, rateLimitHour, keys) :=
    if 0 <? Hour q
    then
      let expireAt := time.Add (nextHourUtc env) (time.Second * 60) in
      (pipe ++ [redis.IncrBy hourKey weight; redis.ExpireAt hourKey expireAt],
       Some (length pipe),
       keys ++ [ {| rk_Key := hourKey; rk_ExpireAt := expireAt |} ])
    else (pipe, None, keys) in
  let '(pipe, rateLimitMonth, keys) :=
    if 0 <? Month q
    then
      let expireAt := time.Add (nextMonthUtc env) (time.Second * 60) in
      (pipe ++ [redis.IncrBy monthKey weight; redis.ExpireAt monthKey expireAt],
       Some (length pipe),
       keys ++ [ {| rk_Key := monthKey; rk_ExpireAt := expireAt |} ])
    else (pipe, None, keys) in
  {| ch_cmds := pipe ++ [redis.Incr stats];
     ch_rateLimitSecond := rateLimitSecond;
     ch_rateLimitHour := rateLimitHour;
     ch_rateLimitMonth := rateLimitMonth;
     ch_RedisKeys := keys |}.

(** The commands [buildCharge] queues for each window. *)
Definition secondSegment (q : RateLimit) (weight : Z) (k : string)
  : list redis.Cmd :=
  if 0 <? Second q
  then [redis.IncrBy k weight; redis.ExpireNX k time.Second] else [].

Definition hourExpireAt (env : Env) : time.Time :=
  time.Add (nextHourUtc env) (time.Second * 60).

Definition monthExpireAt (env : Env) : time.Time :=
  time.Add (nextMonthUtc env) (time.Second * 60).

Definition hourSegment (q : RateLimit) (env : Env) (weight : Z) (k : string)
  : list redis.Cmd :=
  if 0 <? Hour q
  then [redis.IncrBy k weight; redis.ExpireAt k (hourExpireAt env)] else [].

Definition monthSegment (q : RateLimit) (env : Env) (weight : Z) (k : string)
  : list redis.Cmd :=
  if 0 <? Month q
  then [redis.IncrBy k weight; redis.ExpireAt k (monthExpireAt env)] else [].

(** [cmd.Val()] through a command pointer of the pipeline. *)
Definition cmdVal (rs : list redis.Reply) (cmd : option nat) : Z :=
  match cmd with
  | Some i => redis.intVal rs i
  | None => 0
  end.

(** The three window checks that close [rateLimitRequest], second, then
    hour, then month; a window over its limit returns at once. *)
Definition checkWindows (q : RateLimit) (vSecond vHour vMonth : Z)
  (timeUntilNextHourUtc timeUntilNextMonthUtc : time.Duration)
  (res : RateLimitResult) : RateLimitResult :=
  if (0 <? Second q) && (Second q <? vSecond)
  then setReport res (Second q) 0 1 SecondTimeWindow
  else
    let res :=
      if (0 <? Second q) && (res_Limit res <? sub64 (Second q) vSecond)
      then setReport res (Second q) (sub64 (Second q) vSecond) 1 SecondTimeWindow
      else res in
    if (0 <? Hour q) && (Hour q <? vHour)
    then setReport res (Hour q) 0
           (time.SecondsInt64 timeUntilNextHourUtc) HourTimeWindow
    else
      let res :=
        if (0 <? Hour q) && (res_Limit res <? sub64 (Hour q) vHour)
        then setReport res (Hour q) (sub64 (Hour q) vHour)
               (time.SecondsInt64 timeUntilNextHourUtc) HourTimeWindow
        else res in
      if (0 <? Month q) && (Month q <? vMonth)
      then setReport res (Month q) 0
             (time.SecondsInt64 timeUntilNextMonthUtc) MonthTimeWindow
      else
        if (0 <? Month q) && (res_Limit res <? sub64 (Month q) vMonth)
        then setReport res (Month q) (sub64 (Month q) vMonth)
               (time.SecondsInt64 timeUntilNextMonthUtc) MonthTimeWindow
        else res.

(** The lookup under the read lock: user id, whether the key is known, and
    the quota record that applies. *)
Definition lookupCaller (st : State) (key : string) : Z * bool * ptr :=
  match userIdByApiKey st !! key with
  | None => (-1, false, NoKeyRateLimit st)
  | Some userId =>
      (userId, true,
       match rateLimitsByUserId st !! userId with
       | Some limit => limit
       | None => FreeRatelimit st
       end)
  end.

(** The pipeline queued for a caller. *)
Definition requestCharge (q : RateLimit) (env : Env) (weight : Z)
  (route bucket : string) (userId : Z) (isValidKey : bool) : Charge :=
  let startUtc := env_start env in
  buildCharge q env weight
    (rateLimitSecondKey bucket userId)
    (rateLimitHourKey startUtc bucket userId)
    (rateLimitMonthKey startUtc bucket userId)
    (statsKey startUtc isValidKey userId route).

(** [res] as it stands when the pipeline is sent. *)
Definition chargedResult (env : Env) (key ip : string) (userId : Z)
  (isValidKey : bool) (rateLimit : ptr) (weight : Z) (route bucket : string)
  (charge : Charge) : RateLimitResult :=
  {| res_Time := env_start env;
     res_Weight := weight;
     res_Route := route;
     res_IP := ip;
     res_Key := key;
     res_IsValidKey := isValidKey;
     res_UserId := userId;
     res_RedisKeys := ch_RedisKeys charge;
     res_RedisStatsKey := statsKey (env_start env) isValidKey userId route;
     res_RateLimit := rateLimit;
     res_Limit := 0;
     res_Remaining := 0;
     res_Reset := 0;
     res_Bucket := bucket;
     res_Window := "" |}.

Section Pipeline.
Context `{ExternalLibs}.

(** [rateLimitRequest]: the store after the round-trip and the result. *)
Definition rateLimitRequest (st : State) (store : gmap string redis.Entry)
  (env : Env) (r : Request)
  : gmap string redis.Entry * result RateLimitResult :=
  let '(key, ip) := getKey r in
  let '(userId, isValidKey, rateLimit) := lookupCaller st key in
  match getWeight st r with
  | Panic m => (store, Panic m)
  | Error e => (store, Error e)
  | Val (weight, route, bucket) =>
      let startUtc := env_start env in
      let timeUntilNextHourUtc := time.Sub (nextHourUtc env) startUtc in
      let timeUntilNextMonthUtc := time.Sub (nextMonthUtc env) startUtc in
      let q := load (heap st) rateLimit in
      let charge := requestCharge q env weight route bucket userId isValidKey in
      let res :=
        chargedResult env key ip userId isValidKey rateLimit weight route bucket
          charge in
      let '(store', replies, err) :=
        redis.Exec (env_redisNow env) (env_conn env) store (ch_cmds charge) in
      match err with
      | Some e => (store', Error e)
      | None =>
          (store',
           Val (checkWindows q
                  (cmdVal replies (ch_rateLimitSecond charge))
                  (cmdVal replies (ch_rateLimitHour charge))
                  (cmdVal replies (ch_rateLimitMonth charge))
                  timeUntilNextHourUtc timeUntilNextMonthUtc res))
      end
  end.

End Pipeline.

(** Views of a result: the quota record it points at, the counter keys of
    its caller, and the four reported values. *)
Definition quotaOf (st : State) (rl : RateLimitResult) : RateLimit :=
  load (heap st) (res_RateLimit rl).

Definition secondKeyOf (rl : RateLimitResult) : string :=
  rateLimitSecondKey (res_Bucket rl) (res_UserId rl).

Definition hourKeyOf (rl : RateLimitResult) : string :=
  rateLimitHourKey (res_Time rl) (res_Bucket rl) (res_UserId rl).

Definition monthKeyOf (rl : RateLimitResult) : string :=
  rateLimitMonthKey (res_Time rl) (res_Bucket rl) (res_UserId rl).

Definition report (rl : RateLimitResult) : Z * Z * Z * string :=
  (res_Limit rl, res_Remaining rl, res_Reset rl, res_Window rl).

(** The value the INCRBY of [key] answers for a request of weight [w] when
    the pipeline runs on [store]: the counter after the increment. *)
Definition postIncrement (env : Env) (store : gmap string redis.Entry)
  (key : string) (w : Z) : Z :=
  redis.counter (env_redisNow env) store key + w.

(** A window is enforced when its limit is positive, and exceeded when the
    counter after the increment is above the limit. *)
Definition enforced (limit : Z) : bool := 0 <? limit.
Definition exceeded (limit v : Z) : bool := (0 <? limit) && (limit <? v).

(** The commands [postRateLimit] queues when the status is not 200. *)
Definition refundCmds (rl : RateLimitResult) : list redis.Cmd :=
  flat_map (fun k => [redis.DecrBy (rk_Key k) (res_Weight rl);
                      redis.ExpireAt (rk_Key k) (rk_ExpireAt k)])
           (res_RedisKeys rl)
  ++ [redis.DecrBy (res_RedisStatsKey rl) 1].

(** [postRateLimit]: the store afterwards, the commands sent and the error
    returned.  [now] and [conn] are the clock of the store and the fate of
    the round-trip of this second pipeline. *)
Definition postRateLimit (now : time.Time) (conn : redis.Conn)
  (store : gmap string redis.Entry) (rl : RateLimitResult) (status : Z)
  : gmap string redis.Entry * list redis.Cmd * option string :=
  if status =? 200 then (store, [], None)
  else
    let '(store', _, err) := redis.Exec now conn store (refundCmds rl) in
    (store', refundCmds rl, err).

(** ** The middleware *)

Definition HeaderRateLimitLimit : string := "X-RateLimit-Limit".
Definition HeaderRateLimitRemaining : string := "X-RateLimit-Remaining".
Definition HeaderRateLimitReset : string := "X-RateLimit-Reset".
Definition HeaderRetryAfter : string := "Retry-After".
Definition HeaderRateLimitLimitSecond : string := "X-RateLimit-Limit-Second".
Definition HeaderRateLimitLimitHour : string := "X-RateLimit-Limit-Hour".
Definition HeaderRateLimitLimitMonth : string := "X-RateLimit-Limit-Month".

Definition StatusOK : Z := 200.
Definition StatusTooManyRequests : Z := 429.

(** What a handler does to the [http.ResponseWriter] it is given. *)
Inductive WriterCall :=
| WriteHeader (code : Z)
| Write (b : string).

(** The wrapped handler: the calls it makes on its writer for a request. *)
Definition Handler := Request -> list WriterCall.

(** [responseWriterDelegator]: [WriteHeader] records the code; [Write] calls
    [WriteHeader(http.StatusOK)] whenever [wroteHeader] is false, and no
    method sets [wroteHeader]. *)
Definition delegatorStep (status : Z) (c : WriterCall) : Z :=
  match c with
  | WriteHeader code => code
  | Write _ => StatusOK
  end.

(** [d.Status()] after the handler ran on a fresh delegator. *)
Definition delegatorStatus (calls : list WriterCall) : Z :=
  fold_left delegatorStep calls 0.

(** What the middleware does to the response, in order. *)
Inductive Event :=
| SetHeader (name value : string)            (* w.Header().Set(name, value) *)
| HttpError (body : string) (code : Z)       (* http.Error(w, body, code) *)
| ServeNext (proxied : bool) (calls : list WriterCall)
                                             (* next.ServeHTTP(w or d, r) *)
| LogError (msg : string).

(** [DefaultRequestCollector]; a request the server hands over always has a
    URL. *)
Definition DefaultRequestCollector (req : Request) : bool :=
  hasPrefix (Path (req_URL req)) "/api".

(** The surroundings of one pass through the middleware. *)
Record MwEnv := {
  mw_redisIsHealthy : bool;         (* redisIsHealthy.Load() *)
  mw_env : Env;                     (* for rateLimitRequest *)
  mw_postNow : time.Time;           (* clock of the store for postRateLimit *)
  mw_postConn : redis.Conn;         (* round-trip of postRateLimit *)
  mw_fallbackNow : time.Time;       (* time.Now() in the fallback limiter *)
}.

Section Middleware.
Context `{ExternalLibs}.

Record FallbackRateLimiterClient := {
  limiter : Limiter;
  lastSeen : time.Time;
}.

Record Outcome := {
  out_events : list Event;
  out_store : gmap string redis.Entry;
  out_clients : gmap string FallbackRateLimiterClient;
  out_panic : option string;
}.

(** [(rl *FallbackRateLimiter) Handle] *)
Definition Handle (clients : gmap string FallbackRateLimiterClient)
  (now : time.Time) (r : Request) (next : Handler)
  : gmap string FallbackRateLimiterClient * list Event :=
  let '(key, _) := getKey r in
  let client :=
    match clients !! key with
    | Some c => c
    | None =>
        {| limiter := NewLimiter FallbackRateLimitSecond FallbackRateLimitBurst;
           lastSeen := 0 |}
    end in
  let '(allowed, lim) := Allow (limiter client) now in
  let clients := <[key := {| limiter := lim; lastSeen := now |}]> clients in
  if negb allowed
  then (clients,
        [SetHeader HeaderRateLimitLimit (fmt_d FallbackRateLimitSecond);
         SetHeader HeaderRateLimitReset (fmt_d 1);
         HttpError "Too Many Requests" StatusTooManyRequests])
  else (clients, [ServeNext false (next r)]).

(** The rate-limit headers set for a charged request. *)
Definition rateLimitHeaders (q : RateLimit) (rl : RateLimitResult) : list Event :=
  [SetHeader HeaderRateLimitLimit (fmt_d (res_Limit rl));
   SetHeader HeaderRateLimitRemaining (fmt_d (res_Remaining rl));
   SetHeader HeaderRateLimitReset (fmt_d (res_Reset rl))]
  ++ (if 0 <? Second q
      then [SetHeader HeaderRateLimitLimitSecond (fmt_d (Second q))] else [])
  ++ (if 0 <? Hour q
      then [SetHeader HeaderRateLimitLimitHour (fmt_d (Hour q))] else [])
  ++ (if 0 <? Month q
      then [SetHeader HeaderRateLimitLimitMonth (fmt_d (Month q))] else []).

Definition logPost (err : option string) : list Event :=
  match err with
  | Some _ => [LogError "error calling postRateLimit"]
  | None => []
  end.

(** The handler returned by [HttpMiddleware(next)], applied to one request. *)
Definition HttpMiddleware (next : Handler) (requestSelector : Request -> bool)
  (e : MwEnv) (st : State) (store : gmap string redis.Entry)
  (clients : gmap string FallbackRateLimiterClient) (r : Request) : Outcome :=
  if negb (requestSelector r)
  then {| out_events := [ServeNext false (next r)];
          out_store := store; out_clients := clients; out_panic := None |}
  else if negb (mw_redisIsHealthy e)
  then
    let '(clients', evs) := Handle clients (mw_fallbackNow e) r next in
    {| out_events := evs;
       out_store := store; out_clients := clients'; out_panic := None |}
  else
    match rateLimitRequest st store (mw_env e) r with
    | (store1, Panic m) =>
        {| out_events := [];
           out_store := store1; out_clients := clients; out_panic := Some m |}
    | (store1, Error err) =>
        {| out_events := [LogError "error getting rate limit";
                          ServeNext false (next r)];
           out_store := store1; out_clients := clients; out_panic := None |}
    | (store1, Val rl) =>
        let headers := rateLimitHeaders (load (heap st) (res_RateLimit rl)) rl in
        if res_Remaining rl <? res_Weight rl
        then
          let '(store2, _, err) :=
            postRateLimit (mw_postNow e) (mw_postConn e) store1 rl
              StatusTooManyRequests in
          {| out_events :=
               headers
               ++ [SetHeader HeaderRetryAfter (fmt_d (res_Reset rl));
                   HttpError "Too Many Requests" StatusTooManyRequests]
               ++ logPost err;
             out_store := store2; out_clients := clients; out_panic := None |}
        else
          let calls := next r in
          let '(store2, _, err) :=
            postRateLimit (mw_postNow e) (mw_postConn e) store1 rl
              (delegatorStatus calls) in
          {| out_events := headers ++ [ServeNext true calls] ++ logPost err;
             out_store := store2; out_clients := clients; out_panic := None |}
    end.

End Middleware.

(** The response is a 429 produced by the limiter. *)
Definition rejected429 (evs : list Event) : bool :=
  existsb (fun ev => match ev with
                     | HttpError _ code => code =? StatusTooManyRequests
                     | _ => false
                     end) evs.

(** The wrapped handler ran. *)
Definition handlerInvoked (evs : list Event) : bool :=
  existsb (fun ev => match ev with ServeNext _ _ => true | _ => false end) evs.

(** A rate-limit header was set. *)
Definition setsHeader (evs : list Event) : bool :=
  existsb (fun ev => match ev with SetHeader _ _ => true | _ => false end) evs.

(** ** The stats scanner, [updateStats] *)

(** Go's slice expression [s[lo:hi]]: it panics unless [lo <= hi <= cap(s)].
    Every [hi] the scanner uses is at most [len(s)], so that the capacity
    beyond the length plays no part. *)
Definition slice {A : Type} (s : list A) (lo hi : nat) : option (list A) :=
  if (lo <=? hi)%nat && (hi <=? length s)%nat
  then Some (take (hi - lo) (drop lo s))
  else None.

Definition digitVal (c : ascii) : option Z :=
  let n := Z.of_nat (nat_of_ascii c) in
  if (48 <=? n) && (n <=? 57) then Some (n - 48) else None.

(** [getnum] of package [time]: one or two digits, exactly two when
    [fixed]. *)
Definition getnum (s : string) (fixed : bool) : option (Z * string) :=
  match s with
  | String c0 rest =>
      match digitVal c0 with
      | None => None
      | Some d0 =>
          match rest with
          | String c1 rest' =>
              match digitVal c1 with
              | Some d1 => Some (d0 * 10 + d1, rest')
              | None => if fixed then None else Some (d0, rest)
              end
          | EmptyString => if fixed then None else Some (d0, rest)
          end
      end
  | EmptyString => None
  end.

Definition expectDash (s : string) : option string :=
  match s with
  | String c rest => if Ascii.eqb c "-" then Some rest else None
  | EmptyString => None
  end.

Definition isLeap (year : Z) : bool :=
  (year mod 4 =? 0) && (negb (year mod 100 =? 0) || (year mod 400 =? 0)).

Definition daysIn (month year : Z) : Z :=
  if month =? 2 then (if isLeap year then 29 else 28)
  else if (month =? 4) || (month =? 6) || (month =? 9) || (month =? 11) then 30
  else 31.

(** [time.Parse("2006-01-02-15", value)]: a four-digit year, a two-digit
    month, a two-digit day and an hour of one or two digits, separated by
    dashes, each in range, and nothing after them. *)
Definition ParseHourStamp (value : string) : option time.Time :=
  y12 ← getnum value true;
  y34 ← getnum y12.2 true;
  v ← expectDash y34.2;
  mo ← getnum v true;
  v ← expectDash mo.2;
  d ← getnum v true;
  v ← expectDash d.2;
  h ← getnum v false;
  let year := y12.1 * 100 + y34.1 in
  if negb (String.eqb h.2 "") then None
  else if (mo.1 <=? 0) || (12 <? mo.1) then None
  else if 24 <=? h.1 then None
  else if (d.1 <? 1) || (daysIn mo.1 year <? d.1) then None
  else Some (time.FromUnix (time.days_from_civil year mo.1 d.1 * time.secondsPerDay
                            + h.1 * 3600)).

Record dbEntry := {
  Date : time.Time;
  ApiKey : string;
  entry_Path : string;
  Count : Z;
}.

Definition statsTruncateDuration : time.Duration := time.Hour * 1.

(** One round of the loop that parses the keys of a batch: the entry of the
    key, and whether the key goes to [keysToDelete]. *)
Definition parseStatsKey (startTruncated : time.Time) (k : string)
  : result (dbEntry * bool) :=
  let ks := splitChar ":" k in
  match ks with
  | [_; _; dateString; apiKey; path] =>
      match ParseHourStamp dateString with
      | None => Error ("error parsing date in key " +:+ k)
      | Some date =>
          let dateTruncated := time.Truncate date statsTruncateDuration in
          Val ({| Date := dateTruncated; ApiKey := apiKey;
                  entry_Path := path; Count := 0 |},
               time.Before dateTruncated startTruncated)
      end
  | _ => Error ("error parsing key " +:+ k +:+ ": split-len != 5")
  end.

Fixpoint parseStatsKeys (startTruncated : time.Time) (keys : list string)
  : result (list dbEntry * list string) :=
  match keys with
  | [] => Val ([], [])
  | k :: rest =>
      match parseStatsKey startTruncated k with
      | Val (entry, closed) =>
          match parseStatsKeys startTruncated rest with
          | Val (entries, keysToDelete) =>
              Val (entry :: entries,
                   if closed then k :: keysToDelete else keysToDelete)
          | Error e => Error e
          | Panic m => Panic m
          end
      | Error e => Error e
      | Panic m => Panic m
      end
  end.

(** MGET: refused without keys; the value of each key, nil when absent. *)
Definition MGet (now : time.Time) (s : gmap string redis.Entry) (ks : list string)
  : string + list (option Z) :=
  match ks with
  | [] => inl "ERR wrong number of arguments for 'mget' command"
  | _ => inr (map (fun k => redis.val <$> redis.live now s k) ks)
  end.

(** DEL: refused without keys; otherwise the keys are removed. *)
Definition Del (s : gmap string redis.Entry) (ks : list string)
  : gmap string redis.Entry * option string :=
  match ks with
  | [] => (s, Some "ERR wrong number of arguments for 'del' command")
  | _ => (foldr delete s ks, None)
  end.

Definition setCount (e : dbEntry) (c : Z) : dbEntry :=
  {| Date := Date e; ApiKey := ApiKey e; entry_Path := entry_Path e; Count := c |}.

(** The inner loop over one MGET reply:
    [entries[mgetStart+k].Count = value k]; a nil value fails the batch. *)
Fixpoint storeCounts (entries : list dbEntry) (at_ : nat) (vs : list (option Z))
  : option (list dbEntry) :=
  match vs with
  | [] => Some entries
  | None :: _ => None
  | Some v :: vs' =>
      match entries !! at_ with
      | Some e => storeCounts (<[at_ := setCount e v]> entries) (S at_) vs'
      | None => None
      end
  end.

Definition mgetSize : nat := 500.
Definition delSize : nat := 500.

(** [for j := 0; j <= len(keys); j += mgetSize] with the body of the MGET
    loop; [fuel] bounds the number of rounds. *)
Fixpoint mgetLoop (fuel : nat) (now : time.Time) (s : gmap string redis.Entry)
  (keys : list string) (entries : list dbEntry) (j : nat)
  : result (list dbEntry) :=
  match fuel with
  | O => Panic "out of fuel"
  | S fuel' =>
      if (j <=? length keys)%nat then
        let mgetStart := j in
        let mgetEnd := (j + mgetSize)%nat in
        let mgetEnd := if (length keys <? mgetEnd)%nat then length keys else mgetEnd in
        match slice keys mgetStart mgetEnd with
        | None => Panic "runtime error: slice bounds out of range"
        | Some batch =>
            match MGet now s batch with
            | inl e => Error ("error getting stats-count from redis: " +:+ e)
            | inr mgetRes =>
                match storeCounts entries mgetStart mgetRes with
                | None =>
                    Error "error parsing stats-count from redis: value is not string"
                | Some entries' =>
                    mgetLoop fuel' now s keys entries' (j + mgetSize)%nat
                end
            end
        end
      else Val entries
  end.

(** [for j := 0; j <= len(keys); j += delSize] with the body of the deletion
    loop: the bound of the loop is the number of scanned [keys], the slice is
    taken from [keysToDelete].  A failed DEL is logged and the loop goes on.
    The result lists the key groups handed to DEL. *)
Fixpoint delLoop (fuel : nat) (s : gmap string redis.Entry)
  (keys keysToDelete : list string) (j : nat) (sent : list (list string))
  : gmap string redis.Entry * result (list (list string)) :=
  match fuel with
  | O => (s, Panic "out of fuel")
  | S fuel' =>
      if (j <=? length keys)%nat then
        let delStart := j in
        let delEnd := (j + delSize)%nat in
        let delEnd :=
          if (length keysToDelete <? delEnd)%nat then length keysToDelete
          else delEnd in
        match slice keysToDelete delStart delEnd with
        | None => (s, Panic "runtime error: slice bounds out of range")
        | Some group =>
            let '(s', _) := Del s group in
            delLoop fuel' s' keys keysToDelete (j + delSize)%nat (sent ++ [group])
        end
      else (s, Val sent)
  end.

(** [if len(keysToDelete) > 0 { ... }], lines 436 to 449. *)
Definition deleteClosedHourKeys (s : gmap string redis.Entry)
  (keys keysToDelete : list string)
  : gmap string redis.Entry * result (list (list string)) :=
  if (0 <? length keysToDelete)%nat
  then delLoop (S (length keys)) s keys keysToDelete 0 []
  else (s, Val []).

(** The body of the loop over the batches of [updateStats], for the batch
    [keys]: parse, MGET, upsert, delete.  [upsert] is the error of
    [updateStatsEntries], if any. *)
Definition updateStatsBatch (start now : time.Time) (upsert : option string)
  (s : gmap string redis.Entry) (keys : list string)
  : gmap string redis.Entry * result (list (list string)) :=
  let startTruncated := time.Truncate start statsTruncateDuration in
  match parseStatsKeys startTruncated keys with
  | Panic m => (s, Panic m)
  | Error e => (s, Error e)
  | Val (entries, keysToDelete) =>
      match mgetLoop (S (length keys)) now s keys entries 0 with
      | Panic m => (s, Panic m)
      | Error e => (s, Error e)
      | Val entries' =>
          match upsert with
          | Some e => (s, Error ("error updating stats entries: " +:+ e))
          | None => deleteClosedHourKeys s keys keysToDelete
          end
      end
  end.

(** ** Reading the reserved quota *)

(** The quota the request pipeline applies to a caller without a known key,
    and to a caller with a known key and no quota of its own. *)
Definition noKeyQuota (st : State) : RateLimit := load (heap st) (NoKeyRateLimit st).
Definition freeQuota (st : State) : RateLimit := load (heap st) (FreeRatelimit st).

Definition isReserved (p : ApiProduct) : bool :=
  String.eqb (Name p) "nokey" || String.eqb (Name p) "free".

(** The quota of the last product row named [nokey] or [free], or [q] when
    there is none. *)
Definition lastReserved (ps : list ApiProduct) (q : RateLimit) : RateLimit :=
  fold_left (fun acc p =>
               if isReserved p
               then {| Second := ap_Second p; Hour := ap_Hour p; Month := ap_Month p |}
               else acc) ps q.

(** ** Concrete surroundings for the examples *)

(** Libraries that parse no address and a limiter that admits everything. *)
Definition exampleLibs : ExternalLibs :=
  {| ParseIP := fun _ => None;
     SplitHostPort := fun _ => None;
     Limiter := unit;
     NewLimiter := fun _ _ => tt;
     Allow := fun _ _ => (true, tt) |}.

Definition exampleRoute : MuxRoute :=
  {| route_err := None; route_pathTemplate := Some "/api/v1/foo" |}.

(** [GET /api/v1/foo] without key, matched by the router. *)
Definition exampleRequest : Request :=
  {| req_URL := {| Path := "/api/v1/foo"; Query := ∅ |};
     req_Header := ∅;
     req_RemoteAddr := "";
     req_CurrentRoute := Some exampleRoute |}.

(** The same request outside any matched route. *)
Definition unroutedRequest : Request :=
  {| req_URL := {| Path := "/api/v1/foo"; Query := ∅ |};
     req_Header := ∅;
     req_RemoteAddr := "";
     req_CurrentRoute := None |}.

(** 2024-01-01T10:30:00Z, both readings of the clock and the store agree. *)
Definition exampleEnv : Env :=
  {| env_start := time.FromUnix 1704105000;
     env_now := time.FromUnix 1704105000;
     env_redisNow := time.FromUnix 1704105000;
     env_conn := redis.Healthy |}.

(** A run of the refresher whose transaction cannot be opened. *)
Definition failingDbRun : DbRun :=
  {| db_Beginx := Some "connection refused";
     db_api_keys := inr [];
     db_api_ratelimits := inr [];
     db_Commit := None;
     db_products := inr [];
     db_now := time.FromUnix 1704105000 |}.

(** The example request charged on an empty store with the tables of
    [initState], and the result it returns. *)
Definition exampleCharged
  : gmap string redis.Entry * result RateLimitResult :=
  @rateLimitRequest exampleLibs initState ∅ exampleEnv exampleRequest.

Definition exampleResult : RateLimitResult :=
  {| res_Time := 1704105000000000000;
     res_Weight := 1;
     res_Route := "/api/v1/foo";
     res_IP := "INVALID";
     res_Key := "ip_INVALID";
     res_IsValidKey := false;
     res_UserId := -1;
     res_RedisKeys :=
       [ {| rk_Key := "ratelimit:hour:2024-01-01-10:default:-1";
            rk_ExpireAt := 1704106860000000000 |} ];
     res_RedisStatsKey := "ratelimit:stats:2024-01-01-10:nokey:/api/v1/foo";
     res_RateLimit := 0%nat;
     res_Limit := 500;
     res_Remaining := 499;
     res_Reset := 1800;
     res_Bucket := "default";
     res_Window := "hour" |}.

(** One second after the example request. *)
Definition exampleLater : time.Time := time.FromUnix 1704105001.

(** Every response the limiter writes itself carries the status 429. *)
Definition only429 (ev : Event) : Prop :=
  match ev with
  | HttpError _ code => code = StatusTooManyRequests
  | _ => True
  end.

(** The example request when the round-trip is cut after one command. *)
Definition brokenEnv : MwEnv :=
  {| mw_redisIsHealthy := true;
     mw_env := {| env_start := time.FromUnix 1704105000;
                  env_now := time.FromUnix 1704105000;
                  env_redisNow := time.FromUnix 1704105000;
                  env_conn := redis.BrokenAfter 1 |};
     mw_postNow := exampleLater;
     mw_postConn := redis.Healthy;
     mw_fallbackNow := time.FromUnix 1704105000 |}.

(** A handler that answers 200 with a body. *)
Definition okHandler : Handler := fun _ => [WriteHeader 200; Write "ok"].

(** The surroundings of the example request when the store is healthy. *)
Definition exampleMwEnv : MwEnv :=
  {| mw_redisIsHealthy := true;
     mw_env := exampleEnv;
     mw_postNow := exampleLater;
     mw_postConn := redis.Healthy;
     mw_fallbackNow := time.FromUnix 1704105000 |}.

(** A handler that fails with a body, and one that writes nothing. *)
Definition errHandler : Handler := fun _ => [WriteHeader 500; Write "boom"].
Definition silentHandler : Handler := fun _ => [].

(** The value of a response header after the events: the last value set. *)
Definition headerOf (name : string) (evs : list Event) : option string :=
  fold_left (fun acc ev =>
               match ev with
               | SetHeader n v => if String.eqb n name then Some v else acc
               | _ => acc
               end) evs None.

(** ** The reported window, as a fold over the windows in order *)

(** One window as the decision sees it: its limit, the counter after the
    increment, the reset it would report and its name.  Starting from the
    blank report, a window that is enforced and leaves more than the limit
    recorded so far replaces the record. *)
Definition recordWindow (acc : Z * Z * Z * string) (win : Z * Z * Z * string)
  : Z * Z * Z * string :=
  let '(limit, v, reset, name) := win in
  if (0 <? limit) && (acc.1.1.1 <? sub64 limit v)
  then (limit, sub64 limit v, reset, name)
  else acc.

Definition windowsOf (q : RateLimit) (vSecond vHour vMonth : Z)
  (timeUntilNextHourUtc timeUntilNextMonthUtc : time.Duration)
  : list (Z * Z * Z * string) :=
  [ (Second q, vSecond, 1, SecondTimeWindow);
    (Hour q, vHour, time.SecondsInt64 timeUntilNextHourUtc, HourTimeWindow);
    (Month q, vMonth, time.SecondsInt64 timeUntilNextMonthUtc, MonthTimeWindow) ].

(** The second branch of a window check of [checkWindows], on results. *)
Definition recordStage (limit v reset : Z) (name : string)
  (res : RateLimitResult) : RateLimitResult :=
  if (0 <? limit) && (res_Limit res <? sub64 limit v)
  then setReport res limit (sub64 limit v) reset name
  else res.

(** The example request with an API key no table knows. *)
Definition otherRequest : Request :=
  {| req_URL := {| Path := "/api/v1/foo"; Query := ∅ |};
     req_Header := {[ "X-API-KEY" := "nosuchkey" ]};
     req_RemoteAddr := "";
     req_CurrentRoute := Some exampleRoute |}.

Definition otherResult : RateLimitResult :=
  {| res_Time := 1704105000000000000;
     res_Weight := 1;
     res_Route := "/api/v1/foo";
     res_IP := "INVALID";
     res_Key := "nosuchkey";
     res_IsValidKey := false;
     res_UserId := -1;
     res_RedisKeys :=
       [ {| rk_Key := "ratelimit:hour:2024-01-01-10:default:-1";
            rk_ExpireAt := 1704106860000000000 |} ];
     res_RedisStatsKey := "ratelimit:stats:2024-01-01-10:nokey:/api/v1/foo";
     res_RateLimit := 0%nat;
     res_Limit := 500;
     res_Remaining := 499;
     res_Reset := 1800;
     res_Bucket := "default";
     res_Window := "hour" |}.

(** A store in which the per-second counter of the unknown callers already
    stands at its limit of 2 within the running second. *)
Definition busyStore : gmap string redis.Entry :=
  {[ "ratelimit:second:default:%!s(int64=-1)"
     := {| redis.val := 2; redis.expire := Some 1704105000500000000 |} ]}.

Definition busyResult : RateLimitResult :=
  {| res_Time := 1704105000000000000;
     res_Weight := 1;
     res_Route := "/api/v1/foo";
     res_IP := "INVALID";
     res_Key := "ip_INVALID";
     res_IsValidKey := false;
     res_UserId := -1;
     res_RedisKeys :=
       [ {| rk_Key := "ratelimit:hour:2024-01-01-10:default:-1";
            rk_ExpireAt := 1704106860000000000 |} ];
     res_RedisStatsKey := "ratelimit:stats:2024-01-01-10:nokey:/api/v1/foo";
     res_RateLimit := 0%nat;
     res_Limit := 2;
     res_Remaining := 0;
     res_Reset := 1;
     res_Bucket := "default";
     res_Window := "second" |}.

(** A store in which one more request brings the per-second and the hour
    counter of the unknown callers exactly to their limits, 2 and 500. *)
Definition atLimitStore : gmap string redis.Entry :=
  {[ "ratelimit:second:default:%!s(int64=-1)"
     := {| redis.val := 1; redis.expire := Some 1704105000500000000 |};
     "ratelimit:hour:2024-01-01-10:default:-1"
     := {| redis.val := 499; redis.expire := Some 1704106860000000000 |} ]}.

Definition atLimitResult : RateLimitResult :=
  {| res_Time := 1704105000000000000;
     res_Weight := 1;
     res_Route := "/api/v1/foo";
     res_IP := "INVALID";
     res_Key := "ip_INVALID";
     res_IsValidKey := false;
     res_UserId := -1;
     res_RedisKeys :=
       [ {| rk_Key := "ratelimit:hour:2024-01-01-10:default:-1";
            rk_ExpireAt := 1704106860000000000 |} ];
     res_RedisStatsKey := "ratelimit:stats:2024-01-01-10:nokey:/api/v1/foo";
     res_RateLimit := 0%nat;
     res_Limit := 0;
     res_Remaining := 0;
     res_Reset := 0;
     res_Bucket := "default";
     res_Window := "" |}.

(** ** Characters of a string *)

(** [c] occurs in [s]. *)
Fixpoint hasChar (c : ascii) (s : string) : bool :=
  match s with
  | EmptyString => false
  | String c' rest => Ascii.eqb c' c || hasChar c rest
  end.

(** A request with a replaced [X-Forwarded-For] header. *)
Definition withForwardedFor (v : string) (r : Request) : Request :=
  {| req_URL := req_URL r;
     req_Header := <["X-Forwarded-For" := v]> (req_Header r);
     req_RemoteAddr := req_RemoteAddr r;
     req_CurrentRoute := req_CurrentRoute r |}.

(** Libraries that know the address 1.2.3.4 and nothing else. *)
Definition oneAddressLibs : ExternalLibs :=
  {| ParseIP := fun s => if String.eqb s "1.2.3.4" then Some "1.2.3.4" else None;
     SplitHostPort := fun _ => None;
     Limiter := unit;
     NewLimiter := fun _ _ => tt;
     Allow := fun _ _ => (true, tt) |}.

(** A request behind a proxy chain, with a client-supplied first hop. *)
Definition proxiedRequest : Request :=
  {| req_URL := {| Path := "/api/v1/foo"; Query := ∅ |};
     req_Header := {[ "X-Forwarded-For" := "6.6.6.6,1.2.3.4" ]};
     req_RemoteAddr := "";
     req_CurrentRoute := Some exampleRoute |}.

(** * Properties *)

(** ** Sanity checks of the library models *)

Example fmt_0d_year : fmt_0d 4 2024 = "2024". Proof. reflexivity. Qed.
Example fmt_0d_month : fmt_0d 2 3 = "03". Proof. reflexivity. Qed.
Example fmt_s_int64_nokey : fmt_s_int64 (-1) = "%!s(int64=-1)".
Proof. reflexivity. Qed.
Example splitChar_xff :
  splitChar "," "1.1.1.1,2.2.2.2" = ["1.1.1.1"; "2.2.2.2"].
Proof. reflexivity. Qed.
Example splitChar_empty : splitChar "," "" = [""].
Proof. reflexivity. Qed.
Example civil_epoch : time.civil_from_days 0 = (1970, 1, 1).
Proof. reflexivity. Qed.
Example civil_leap : time.civil_from_days 19782 = (2024, 2, 29).
Proof. reflexivity. Qed.
Example days_leap : time.days_from_civil 2024 2 29 = 19782.
Proof. reflexivity. Qed.
Example date_december_rolls_over :
  time.Date 2023 13 1 = time.FromUnix 1704067200.
Proof. reflexivity. Qed.

(** ** Route derivation *)

Lemma getRoute_without_template (r : Request) (rt : MuxRoute) :
  req_CurrentRoute r = Some rt ->
  route_pathTemplate rt = None ->
  getRoute r = Val "UNDEFINED".
Proof.
  intros Hr Ht. unfold getRoute, GetPathTemplate. rewrite Hr, Ht.
  destruct (route_err rt); reflexivity.
Qed.

(** C9.  A request for which the router exposes no current route does not
    yield ["UNDEFINED"]: [getRoute] calls [GetPathTemplate] on the nil route
    and panics, whatever the rest of the request is. *)
Theorem getRoute_nil_route_panics :
  forall (url : URL) (hdr : gmap string string) (addr : string),
    getRoute {| req_URL := url; req_Header := hdr; req_RemoteAddr := addr;
               req_CurrentRoute := None |}
    = Panic "runtime error: invalid memory address or nil pointer dereference"
    /\ getRoute unroutedRequest <> Val "UNDEFINED".
Proof.
  intros url hdr addr. split; [reflexivity | discriminate].
Qed.

(** ** The limits refresher *)

(** C8.  A run of the refresher that returns an error leaves the tables as
    they were: the key table, the per-user quota table, the interning map,
    the heap of quota records and both watermarks. *)
Theorem updateRateLimits_error_keeps_state :
  forall (db : DbRun) (st st' : State) (err : string),
    updateRateLimits db st = (st', Some err) ->
    st' = st
    /\ userIdByApiKey st' = userIdByApiKey st
    /\ rateLimitsByUserId st' = rateLimitsByUserId st
    /\ rateLimits st' = rateLimits st
    /\ lastRateLimitUpdateKeys st' = lastRateLimitUpdateKeys st
    /\ lastRateLimitUpdateRateLimits st' = lastRateLimitUpdateRateLimits st.
Proof.
  intros db st st' err Hrun.
  assert (Heq : st' = st).
  { unfold updateRateLimits in Hrun.
    destruct (db_Beginx db); [congruence |].
    destruct (db_api_keys db); [congruence |].
    destruct (db_api_ratelimits db); [congruence |].
    destruct (db_Commit db); [congruence |].
    destruct (db_products db); [congruence |].
    destruct (fold_left (applyKeyRow _) _ _) as [tk byKey].
    destruct (fold_left (applyRateLimitRow _) _ _) as [[[tr h] interned] byUser].
    discriminate. }
  subst st'. repeat split.
Qed.

Lemma updateRateLimits_error_keeps_state_witness :
  fst (updateRateLimits failingDbRun initState) = initState.
Proof.
  apply (updateRateLimits_error_keeps_state failingDbRun initState _
           "connection refused").
  reflexivity.
Defined.

(** *** Aliasing of the reserved quota records *)

Lemma applyProduct_pointers (st : State) (p : ApiProduct) :
  NoKeyRateLimit (applyProduct st p) = NoKeyRateLimit st
  /\ FreeRatelimit (applyProduct st p) = FreeRatelimit st
  /\ length (heap (applyProduct st p)) = length (heap st).
Proof.
  unfold applyProduct, with_heap, storeFields.
  destruct (String.eqb (Name p) "nokey"), (String.eqb (Name p) "free");
    cbn; rewrite ?length_insert; auto.
Qed.

Lemma applyProducts_pointers (ps : list ApiProduct) (st : State) :
  NoKeyRateLimit (fold_left applyProduct ps st) = NoKeyRateLimit st
  /\ FreeRatelimit (fold_left applyProduct ps st) = FreeRatelimit st
  /\ length (heap (fold_left applyProduct ps st)) = length (heap st).
Proof.
  revert st. induction ps as [| p ps IH]; intros st; cbn; [auto |].
  destruct (IH (applyProduct st p)) as (-> & -> & ->).
  apply applyProduct_pointers.
Qed.

(** With both names on one record, a reserved row overwrites that record and
    any other row leaves it alone. *)
Lemma applyProduct_aliased (st : State) (p : ApiProduct) :
  FreeRatelimit st = NoKeyRateLimit st ->
  (NoKeyRateLimit st < length (heap st))%nat ->
  noKeyQuota (applyProduct st p) = lastReserved [p] (noKeyQuota st).
Proof.
  intros Halias Hlt.
  unfold noKeyQuota, lastReserved, isReserved, applyProduct, with_heap,
    storeFields, load. cbn [fold_left].
  destruct (String.eqb (Name p) "nokey"), (String.eqb (Name p) "free"); cbn;
    rewrite ?Halias;
    rewrite ?list_lookup_insert_eq by (rewrite ?length_insert; lia);
    reflexivity.
Qed.

Lemma applyProducts_aliased (ps : list ApiProduct) (st : State) :
  FreeRatelimit st = NoKeyRateLimit st ->
  (NoKeyRateLimit st < length (heap st))%nat ->
  noKeyQuota (fold_left applyProduct ps st) = lastReserved ps (noKeyQuota st).
Proof.
  revert st. induction ps as [| p ps IH]; intros st Halias Hlt; [reflexivity |].
  cbn [fold_left].
  destruct (applyProduct_pointers st p) as (HN & HF & HL).
  rewrite IH by (rewrite ?HN, ?HF, ?HL; auto).
  rewrite (applyProduct_aliased st p Halias Hlt). reflexivity.
Qed.

(** The loop over the quota rows only appends to the heap. *)
Lemma applyRateLimitRow_heap (now : time.Time) (row : RateLimitRow)
  (t : time.Time) (h : list RateLimit) (i : gmap string ptr) (u : gmap Z ptr) :
  exists ext, (applyRateLimitRow now (t, h, i, u) row).1.1.2 = h ++ ext.
Proof.
  unfold applyRateLimitRow, alloc.
  destruct (time.Before _ _); [exists []; cbn; by rewrite app_nil_r |].
  destruct (i !! _); cbn; [exists []; by rewrite app_nil_r | eauto].
Qed.

Lemma applyRateLimitRows_heap (now : time.Time) (rows : list RateLimitRow)
  (acc : time.Time * list RateLimit * gmap string ptr * gmap Z ptr) :
  exists ext, (fold_left (applyRateLimitRow now) rows acc).1.1.2 = acc.1.1.2 ++ ext.
Proof.
  revert acc. induction rows as [| row rows IH]; intros acc; cbn [fold_left].
  - exists []. by rewrite app_nil_r.
  - destruct (IH (applyRateLimitRow now acc row)) as [ext2 ->].
    destruct acc as [[[t h] i] u].
    destruct (applyRateLimitRow_heap now row t h i u) as [ext1 ->].
    exists (ext1 ++ ext2). cbn. by rewrite app_assoc.
Qed.

Lemma load_app (h ext : list RateLimit) (p : ptr) :
  (p < length h)%nat -> load (h ++ ext) p = load h p.
Proof. intros Hp. unfold load. by rewrite lookup_app_l. Qed.

(** One run of the refresher: the pointers stay, the heap does not shrink,
    and a successful run leaves in the aliased record the last reserved
    row. *)
Lemma updateRateLimits_aliased (db : DbRun) (st : State) :
  FreeRatelimit st = NoKeyRateLimit st ->
  (NoKeyRateLimit st < length (heap st))%nat ->
  let st' := (updateRateLimits db st).1 in
  FreeRatelimit st' = NoKeyRateLimit st'
  /\ (NoKeyRateLimit st' < length (heap st'))%nat
  /\ match (updateRateLimits db st).2, db_products db with
     | None, inr ps => noKeyQuota st' = lastReserved ps (noKeyQuota st)
     | _, _ => st' = st
     end.
Proof.
  intros Halias Hlt. unfold updateRateLimits.
  destruct (db_Beginx db); [cbn; auto |].
  destruct (db_api_keys db) as [e | keys]; [cbn; auto |].
  destruct (db_api_ratelimits db) as [e | rows]; [cbn; auto |].
  destruct (db_Commit db); [cbn; destruct (db_products db); auto |].
  destruct (db_products db) as [e | ps]; [cbn; auto |].
  destruct (applyProducts_pointers ps st) as (HN & HF & HL).
  pose proof (applyProducts_aliased ps st Halias Hlt) as HQ.
  set (st1 := fold_left applyProduct ps st) in *.
  destruct (fold_left (applyKeyRow _) _ _) as [tk byKey].
  pose proof (applyRateLimitRows_heap (db_now db) rows
                (lastRateLimitUpdateRateLimits st,
                 heap (with_userIdByApiKey st1 byKey),
                 rateLimits (with_userIdByApiKey st1 byKey),
                 rateLimitsByUserId (with_userIdByApiKey st1 byKey))) as [ext Hext].
  destruct (fold_left (applyRateLimitRow _) _ _) as [[[tr h] interned] byUser].
  cbn in Hext. subst h. cbn.
  rewrite HN, HF. split; [exact Halias |].
  split; [rewrite length_app; lia |].
  unfold noKeyQuota in *. cbn. rewrite HN in *.
  rewrite load_app by lia. exact HQ.
Qed.

Lemma refreshAll_aliased (runs : list DbRun) (st : State) :
  FreeRatelimit st = NoKeyRateLimit st ->
  (NoKeyRateLimit st < length (heap st))%nat ->
  FreeRatelimit (refreshAll runs st) = NoKeyRateLimit (refreshAll runs st)
  /\ (NoKeyRateLimit (refreshAll runs st) < length (heap (refreshAll runs st)))%nat.
Proof.
  revert st. induction runs as [| db runs IH]; intros st Halias Hlt; [auto |].
  unfold refreshAll in *. cbn [fold_left].
  destruct (updateRateLimits_aliased db st Halias Hlt) as (H1 & H2 & _).
  apply IH; assumption.
Qed.

(** ** The counter store *)

Section Store.
Implicit Types (s : gmap string redis.Entry) (k : string) (now : time.Time).

Lemma live_ext now s s' k :
  s !! k = s' !! k -> redis.live now s k = redis.live now s' k.
Proof. unfold redis.live. by intros ->. Qed.

Lemma counter_ext now s s' k :
  s !! k = s' !! k -> redis.counter now s k = redis.counter now s' k.
Proof. unfold redis.counter. intros E. by rewrite (live_ext now s s' k E). Qed.

Lemma incrby_other now s k n k' :
  k <> k' -> (redis.incrby now s k n).1 !! k' = s !! k'.
Proof.
  intros Hne. unfold redis.incrby.
  destruct (in_int64 _); cbn; [by rewrite lookup_insert_ne | done].
Qed.

Lemma set_expiry_other now s k e t k' :
  k <> k' -> redis.set_expiry now s k e t !! k' = s !! k'.
Proof.
  intros Hne. unfold redis.set_expiry.
  destruct (t <=? now); [by rewrite lookup_delete_ne | by rewrite lookup_insert_ne].
Qed.

Lemma exec_cmd_other now s c k' :
  redis.cmdKey c <> k' -> (redis.exec_cmd now s c).1 !! k' = s !! k'.
Proof.
  intros Hne. destruct c as [k n | k | k n | k d | k t]; cbn in *.
  - by apply incrby_other.
  - by apply incrby_other.
  - destruct (n =? min_int64); [done | by apply incrby_other].
  - destruct (redis.live now s k) as [e |]; [| done].
    destruct (redis.expire e); [done |]. cbn. by apply set_expiry_other.
  - destruct (redis.live now s k) as [e |]; [| done].
    cbn. by apply set_expiry_other.
Qed.

Lemma run_other now cmds s k' :
  Forall (fun c => redis.cmdKey c <> k') cmds ->
  (redis.run now s cmds).1 !! k' = s !! k'.
Proof.
  revert s. induction cmds as [| c cs IH]; intros s Hall; [done |].
  inversion Hall as [| ? ? Hc Hcs]; subst. cbn.
  destruct (redis.exec_cmd now s c) as [s1 r] eqn:E1.
  specialize (IH s1 Hcs).
  destruct (redis.run now s1 cs) as [s2 rs]. cbn in *.
  rewrite IH. pose proof (exec_cmd_other now s c k' Hc) as Hs. by rewrite E1 in Hs.
Qed.

Lemma run_app now a b s :
  redis.run now s (a ++ b)
  = let '(s1, r1) := redis.run now s a in
    let '(s2, r2) := redis.run now s1 b in
    (s2, r1 ++ r2).
Proof.
  revert s. induction a as [| c cs IH]; intros s; cbn.
  - by destruct (redis.run now s b).
  - destruct (redis.exec_cmd now s c) as [s1 r]. rewrite IH.
    destruct (redis.run now s1 cs) as [s2 rs].
    by destruct (redis.run now s2 b).
Qed.

Lemma run_length now cmds s : length (redis.run now s cmds).2 = length cmds.
Proof.
  revert s. induction cmds as [| c cs IH]; intros s; cbn; [done |].
  destruct (redis.exec_cmd now s c) as [s1 r]. specialize (IH s1).
  destruct (redis.run now s1 cs). cbn in *. by rewrite IH.
Qed.

Lemma firstErr_app (a b : list redis.Reply) :
  redis.firstErr (a ++ b) = None <->
  redis.firstErr a = None /\ redis.firstErr b = None.
Proof.
  induction a as [| [v | m] a IH]; cbn; [tauto | exact IH |].
  split; [discriminate | intros [? _]; discriminate].
Qed.

(** INCRBY answers with the counter plus the increment, or refuses. *)
Lemma incrby_reply now s k n :
  (redis.incrby now s k n).2
  = if in_int64 (redis.counter now s k + n)
    then redis.IntReply (redis.counter now s k + n)
    else redis.ErrReply redis.overflow_msg.
Proof.
  unfold redis.incrby, redis.counter.
  destruct (redis.live now s k); by destruct (in_int64 _).
Qed.

Lemma incrby_lookup now s k n :
  in_int64 (redis.counter now s k + n) = true ->
  (redis.incrby now s k n).1 !! k
  = Some {| redis.val := redis.counter now s k + n;
            redis.expire := match redis.live now s k with
                            | Some e => redis.expire e
                            | None => None
                            end |}.
Proof.
  unfold redis.incrby, redis.counter. intros Hin.
  destruct (redis.live now s k); rewrite Hin; cbn; by rewrite lookup_insert_eq.
Qed.

End Store.

Section Segments.
Implicit Types (s : gmap string redis.Entry) (k : string) (now : time.Time).

Lemma live_Some now s k e :
  redis.live now s k = Some e ->
  s !! k = Some e
  /\ match redis.expire e with Some t => now < t | None => True end.
Proof.
  unfold redis.live. destruct (s !! k) as [e' |]; [| discriminate].
  destruct (redis.expire e') as [t |] eqn:Et.
  - destruct (t <=? now) eqn:Hle; [discriminate |].
    intros [= <-]. rewrite Et. split; [done | lia].
  - intros [= <-]. by rewrite Et.
Qed.

Lemma live_intro now s k e :
  s !! k = Some e ->
  match redis.expire e with Some t => now < t | None => True end ->
  redis.live now s k = Some e.
Proof.
  unfold redis.live. intros -> Ht. destruct (redis.expire e) as [t |]; [| done].
  destruct (t <=? now) eqn:Hle; [lia | done].
Qed.

(** After a successful INCRBY the key is live and holds the new value. *)
Lemma incrby_live now s k n :
  in_int64 (redis.counter now s k + n) = true ->
  exists ttl,
    redis.live now (redis.incrby now s k n).1 k
    = Some {| redis.val := redis.counter now s k + n; redis.expire := ttl |}
    /\ ttl = match redis.live now s k with
             | Some e => redis.expire e
             | None => None
             end.
Proof.
  intros Hin. eexists. split; [| reflexivity].
  apply live_intro; [by apply incrby_lookup |]. cbn.
  destruct (redis.live now s k) as [e |] eqn:El; [| done].
  by destruct (live_Some now s k e El) as [_ Ht].
Qed.

(** The two commands queued for the hour and for the month window. *)
Lemma run_incr_expireAt now s k w E s' rs :
  redis.run now s [redis.IncrBy k w; redis.ExpireAt k E] = (s', rs) ->
  redis.firstErr rs = None ->
  in_int64 (redis.counter now s k + w) = true
  /\ rs = [redis.IntReply (redis.counter now s k + w); redis.IntReply 1]
  /\ (forall k', k <> k' -> s' !! k' = s !! k')
  /\ (now < time.FromUnix (time.Unix E) ->
      s' !! k = Some {| redis.val := redis.counter now s k + w;
                        redis.expire := Some (time.FromUnix (time.Unix E)) |}).
Proof.
  cbn. intros Hrun Herr.
  pose proof (incrby_reply now s k w) as Hr.
  pose proof (incrby_live now s k w) as Hl.
  pose proof (fun k' => incrby_other now s k w k') as Ho.
  destruct (redis.incrby now s k w) as [s1 r1]. cbn in *.
  destruct (in_int64 (redis.counter now s k + w)) eqn:Hin; subst r1.
  2:{ destruct (redis.live now s1 k); inversion Hrun; subst; discriminate. }
  destruct (Hl eq_refl) as (ttl & Hlive & _). rewrite Hlive in Hrun.
  inversion Hrun; subst s' rs. clear Hrun.
  split; [done |]. split; [done |]. split.
  - intros k' Hne. rewrite set_expiry_other by done. by apply Ho.
  - intros Hfuture. unfold redis.set_expiry.
    destruct (_ <=? now) eqn:Hle; [lia |]. by rewrite lookup_insert_eq.
Qed.

(** The two commands queued for the second window. *)
Lemma run_incr_expireNX now s k w d s' rs :
  redis.run now s [redis.IncrBy k w; redis.ExpireNX k d] = (s', rs) ->
  redis.firstErr rs = None ->
  in_int64 (redis.counter now s k + w) = true
  /\ (exists v, rs = [redis.IntReply (redis.counter now s k + w); redis.IntReply v])
  /\ (forall k', k <> k' -> s' !! k' = s !! k').
Proof.
  cbn. intros Hrun Herr.
  pose proof (incrby_reply now s k w) as Hr.
  pose proof (incrby_live now s k w) as Hl.
  pose proof (fun k' => incrby_other now s k w k') as Ho.
  destruct (redis.incrby now s k w) as [s1 r1]. cbn in *.
  destruct (in_int64 (redis.counter now s k + w)) eqn:Hin; subst r1.
  2:{ destruct (redis.live now s1 k) as [e |]; [destruct (redis.expire e) |];
      inversion Hrun; subst; discriminate. }
  destruct (Hl eq_refl) as (ttl & Hlive & _). rewrite Hlive in Hrun. cbn in Hrun.
  split; [done |].
  destruct ttl; inversion Hrun; subst s' rs; (split; [eauto |]);
    intros k' Hne; rewrite ?set_expiry_other by done; by apply Ho.
Qed.

(** The closing INCR of the stats key. *)
Lemma run_incr now s k s' rs :
  redis.run now s [redis.Incr k] = (s', rs) ->
  redis.firstErr rs = None ->
  rs = [redis.IntReply (redis.counter now s k + 1)]
  /\ (forall k', k <> k' -> s' !! k' = s !! k')
  /\ redis.live now s' k
     = Some {| redis.val := redis.counter now s k + 1;
               redis.expire := match redis.live now s k with
                               | Some e => redis.expire e
                               | None => None
                               end |}.
Proof.
  cbn. intros Hrun Herr.
  pose proof (incrby_reply now s k 1) as Hr.
  pose proof (incrby_live now s k 1) as Hl.
  pose proof (fun k' => incrby_other now s k 1 k') as Ho.
  destruct (redis.incrby now s k 1) as [s1 r1]. cbn in *.
  inversion Hrun; subst s' rs. clear Hrun.
  destruct (in_int64 (redis.counter now s k + 1)) eqn:Hin; subst r1;
    [| discriminate].
  destruct (Hl eq_refl) as (ttl & Hlive & ->).
  split; [done |]. split; [| done]. intros k' Hne. by apply Ho.
Qed.

End Segments.

(** ** The keys of one request are pairwise distinct *)

Lemma secondKey_hourKey t b u b' u' :
  rateLimitSecondKey b u <> rateLimitHourKey t b' u'.
Proof. unfold rateLimitSecondKey, rateLimitHourKey. cbn. discriminate. Qed.

Lemma secondKey_monthKey t b u b' u' :
  rateLimitSecondKey b u <> rateLimitMonthKey t b' u'.
Proof. unfold rateLimitSecondKey, rateLimitMonthKey. cbn. discriminate. Qed.

Lemma secondKey_statsKey t b u v u' rt :
  rateLimitSecondKey b u <> statsKey t v u' rt.
Proof. unfold rateLimitSecondKey, statsKey. cbn. discriminate. Qed.

Lemma hourKey_monthKey t b u t' b' u' :
  rateLimitHourKey t b u <> rateLimitMonthKey t' b' u'.
Proof. unfold rateLimitHourKey, rateLimitMonthKey. cbn. discriminate. Qed.

Lemma hourKey_statsKey t b u t' v u' rt :
  rateLimitHourKey t b u <> statsKey t' v u' rt.
Proof. unfold rateLimitHourKey, statsKey. cbn. discriminate. Qed.

Lemma monthKey_statsKey t b u t' v u' rt :
  rateLimitMonthKey t b u <> statsKey t' v u' rt.
Proof. unfold rateLimitMonthKey, statsKey. cbn. discriminate. Qed.

(** ** The pipeline of a request *)

Lemma buildCharge_shape q env w kS kH kM ks :
  let c := buildCharge q env w kS kH kM ks in
  ch_cmds c = secondSegment q w kS ++ hourSegment q env w kH
              ++ monthSegment q env w kM ++ [redis.Incr ks]
  /\ ch_rateLimitSecond c = (if 0 <? Second q then Some 0%nat else None)
  /\ ch_rateLimitHour c
     = (if 0 <? Hour q then Some (length (secondSegment q w kS)) else None)
  /\ ch_rateLimitMonth c
     = (if 0 <? Month q
        then Some (length (secondSegment q w kS ++ hourSegment q env w kH))
        else None)
  /\ ch_RedisKeys c
     = (if 0 <? Hour q
        then [ {| rk_Key := kH; rk_ExpireAt := hourExpireAt env |} ] else [])
       ++ (if 0 <? Month q
           then [ {| rk_Key := kM; rk_ExpireAt := monthExpireAt env |} ] else []).
Proof.
  unfold buildCharge, secondSegment, hourSegment, monthSegment,
    hourExpireAt, monthExpireAt.
  destruct (0 <? Second q), (0 <? Hour q), (0 <? Month q); cbn; auto.
Qed.

Lemma intVal_app_l (a b : list redis.Reply) (i : nat) :
  (i < length a)%nat -> redis.intVal (a ++ b) i = redis.intVal a i.
Proof. intros Hi. unfold redis.intVal. by rewrite lookup_app_l. Qed.

Lemma intVal_app_r (a b : list redis.Reply) (i : nat) :
  redis.intVal (a ++ b) (length a + i) = redis.intVal b i.
Proof.
  unfold redis.intVal. rewrite lookup_app_r by lia.
  by replace (length a + i - length a)%nat with i by lia.
Qed.

Section ChargeSegments.
Implicit Types (s : gmap string redis.Entry) (k : string) (now : time.Time).

Lemma secondSegment_run q w k now s s' rs :
  redis.run now s (secondSegment q w k) = (s', rs) ->
  redis.firstErr rs = None ->
  (forall k', k <> k' -> s' !! k' = s !! k')
  /\ length rs = length (secondSegment q w k)
  /\ ((0 <? Second q) = true ->
      redis.intVal rs 0 = redis.counter now s k + w
      /\ in_int64 (redis.counter now s k + w) = true).
Proof.
  unfold secondSegment. destruct (0 <? Second q).
  - intros Hrun Herr.
    destruct (run_incr_expireNX now s k w _ s' rs Hrun Herr)
      as (Hin & [v ->] & Hframe).
    split; [done |]. split; [done |]. by intros _.
  - cbn. intros [= <- <-] _. split; [done |]. split; [done |]. discriminate.
Qed.

Lemma expireAtSegment_run (enforced : bool) w k E now s s' rs :
  redis.run now s
    (if enforced then [redis.IncrBy k w; redis.ExpireAt k E] else []) = (s', rs) ->
  redis.firstErr rs = None ->
  (forall k', k <> k' -> s' !! k' = s !! k')
  /\ length rs = (if enforced then 2 else 0)%nat
  /\ (enforced = true ->
      redis.intVal rs 0 = redis.counter now s k + w
      /\ in_int64 (redis.counter now s k + w) = true
      /\ (now < time.FromUnix (time.Unix E) ->
          s' !! k = Some {| redis.val := redis.counter now s k + w;
                            redis.expire := Some (time.FromUnix (time.Unix E)) |})).
Proof.
  destruct enforced.
  - intros Hrun Herr.
    destruct (run_incr_expireAt now s k w E s' rs Hrun Herr)
      as (Hin & -> & Hframe & Hentry).
    split; [done |]. split; [done |]. by intros _.
  - cbn. intros [= <- <-] _. split; [done |]. split; [done |]. discriminate.
Qed.

End ChargeSegments.
(** What a pipeline that went through tells about the counters: the INCRBY
    of every enforced window answered the counter of its key plus the
    weight, and the hour and month keys now hold that value until their
    expiry. *)
Lemma charge_run q env w kS kH kM ks now s s' rs :
  kS <> kH -> kS <> kM -> kS <> ks -> kH <> kM -> kH <> ks -> kM <> ks ->
  let c := buildCharge q env w kS kH kM ks in
  redis.run now s (ch_cmds c) = (s', rs) ->
  redis.firstErr rs = None ->
  ((0 <? Second q) = true ->
   cmdVal rs (ch_rateLimitSecond c) = redis.counter now s kS + w
   /\ in_int64 (redis.counter now s kS + w) = true)
  /\ ((0 <? Hour q) = true ->
      cmdVal rs (ch_rateLimitHour c) = redis.counter now s kH + w
      /\ in_int64 (redis.counter now s kH + w) = true
      /\ (now < time.FromUnix (time.Unix (hourExpireAt env)) ->
          s' !! kH
          = Some {| redis.val := redis.counter now s kH + w;
                    redis.expire :=
                      Some (time.FromUnix (time.Unix (hourExpireAt env))) |}))
  /\ ((0 <? Month q) = true ->
      cmdVal rs (ch_rateLimitMonth c) = redis.counter now s kM + w
      /\ in_int64 (redis.counter now s kM + w) = true
      /\ (now < time.FromUnix (time.Unix (monthExpireAt env)) ->
          s' !! kM
          = Some {| redis.val := redis.counter now s kM + w;
                    redis.expire :=
                      Some (time.FromUnix (time.Unix (monthExpireAt env))) |}))
  /\ redis.live now s' ks
     = Some {| redis.val := redis.counter now s ks + 1;
               redis.expire := match redis.live now s ks with
                               | Some e => redis.expire e
                               | None => None
                               end |}
  /\ s' !! kS = (redis.run now s (secondSegment q w kS)).1 !! kS.
Proof.
  intros HSH HSM HSs HHM HHs HMs c Hrun Herr.
  destruct (buildCharge_shape q env w kS kH kM ks) as (Hc & HiS & HiH & HiM & _).
  fold c in Hc, HiS, HiH, HiM. rewrite Hc in Hrun. rewrite HiS, HiH, HiM.
  rewrite run_app in Hrun.
  destruct (redis.run now s (secondSegment q w kS)) as [s1 r1] eqn:E1.
  rewrite run_app in Hrun.
  destruct (redis.run now s1 (hourSegment q env w kH)) as [s2 r2] eqn:E2.
  rewrite run_app in Hrun.
  destruct (redis.run now s2 (monthSegment q env w kM)) as [s3 r3] eqn:E3.
  destruct (redis.run now s3 [redis.Incr ks]) as [s4 r4] eqn:E4.
  inversion Hrun; subst s' rs. clear Hrun.
  apply firstErr_app in Herr as [Herr1 Herr].
  apply firstErr_app in Herr as [Herr2 Herr].
  apply firstErr_app in Herr as [Herr3 Herr4].
  destruct (secondSegment_run q w kS now s s1 r1 E1 Herr1) as (F1 & L1 & V1).
  unfold hourSegment in E2.
  destruct (expireAtSegment_run _ w kH _ now s1 s2 r2 E2 Herr2) as (F2 & L2 & V2).
  unfold monthSegment in E3.
  destruct (expireAtSegment_run _ w kM _ now s2 s3 r3 E3 Herr3) as (F3 & L3 & V3).
  destruct (run_incr now s3 ks s4 r4 E4 Herr4) as (-> & F4 & V4).
  split; [intros HS | split; [intros HH | split; [intros HM | split]]].
  - rewrite HS. cbn [cmdVal]. rewrite intVal_app_l; [by apply V1 |].
    rewrite L1. unfold secondSegment. rewrite HS. cbn. lia.
  - rewrite HH in *. cbn [cmdVal]. rewrite <- L1.
    replace (length r1) with (length r1 + 0)%nat by lia.
    rewrite intVal_app_r, intVal_app_l by (rewrite L2; lia).
    destruct (V2 eq_refl) as (-> & Hin & He).
    rewrite (counter_ext now s1 s kH (F1 kH HSH)) in *.
    split; [done |]. split; [done |].
    intros Hfut. rewrite F4, F3 by done. by apply He.
  - rewrite HM in *. cbn [cmdVal]. rewrite length_app, <- L1.
    assert (L2' : length (hourSegment q env w kH) = length r2).
    { unfold hourSegment. rewrite L2. by destruct (0 <? Hour q). }
    rewrite L2'.
    replace (length r1 + length r2)%nat
      with (length r1 + (length r2 + 0))%nat by lia.
    rewrite !intVal_app_r, intVal_app_l by (rewrite L3; lia).
    destruct (V3 eq_refl) as (-> & Hin & He).
    assert (HkM : s2 !! kM = s !! kM) by (rewrite F2, F1; done).
    rewrite (counter_ext now s2 s kM HkM) in *.
    split; [done |]. split; [done |].
    intros Hfut. rewrite F4 by done. by apply He.
  - rewrite V4.
    assert (Hks : s3 !! ks = s !! ks) by (rewrite F3, F2, F1; done).
    by rewrite (counter_ext now s3 s ks Hks), (live_ext now s3 s ks Hks).
  - cbn. rewrite F4, F3, F2 by done. done.
Qed.

(** ** Facts about [checkWindows] *)

Lemma checkWindows_fields q vS vH vM dH dM res :
  let rl := checkWindows q vS vH vM dH dM res in
  res_Time rl = res_Time res
  /\ res_Weight rl = res_Weight res
  /\ res_Route rl = res_Route res
  /\ res_IsValidKey rl = res_IsValidKey res
  /\ res_UserId rl = res_UserId res
  /\ res_RedisKeys rl = res_RedisKeys res
  /\ res_RedisStatsKey rl = res_RedisStatsKey res
  /\ res_RateLimit rl = res_RateLimit res
  /\ res_Bucket rl = res_Bucket res.
Proof.
  unfold checkWindows.
  repeat match goal with
         | |- context [if ?b then _ else _] => destruct b
         end; cbn; auto 10.
Qed.

(** The answer of a window that is not enforced is not looked at. *)
Lemma checkWindows_congr q vS vH vM vS' vH' vM' dH dM res :
  ((0 <? Second q) = true -> vS = vS') ->
  ((0 <? Hour q) = true -> vH = vH') ->
  ((0 <? Month q) = true -> vM = vM') ->
  checkWindows q vS vH vM dH dM res = checkWindows q vS' vH' vM' dH dM res.
Proof.
  intros HS HH HM. unfold checkWindows.
  destruct (0 <? Second q); [rewrite (HS eq_refl) | cbn];
    (destruct (0 <? Hour q); [rewrite (HH eq_refl) | cbn]);
    (destruct (0 <? Month q); [rewrite (HM eq_refl) | cbn]); reflexivity.
Qed.

(** ** What a charged request knows *)

Section PipelineFacts.
Context `{ExternalLibs}.

(** Unfolding of a call that returned a result. *)
Lemma rateLimitRequest_Val st store env r store1 rl :
  rateLimitRequest st store env r = (store1, Val rl) ->
  exists key ip userId isValidKey rateLimit weight route bucket replies,
    getKey r = (key, ip)
    /\ lookupCaller st key = (userId, isValidKey, rateLimit)
    /\ getWeight st r = Val (weight, route, bucket)
    /\ env_conn env = redis.Healthy
    /\ let q := load (heap st) rateLimit in
       let charge := requestCharge q env weight route bucket userId isValidKey in
       redis.run (env_redisNow env) store (ch_cmds charge) = (store1, replies)
       /\ redis.firstErr replies = None
       /\ rl = checkWindows q
                 (cmdVal replies (ch_rateLimitSecond charge))
                 (cmdVal replies (ch_rateLimitHour charge))
                 (cmdVal replies (ch_rateLimitMonth charge))
                 (time.Sub (nextHourUtc env) (env_start env))
                 (time.Sub (nextMonthUtc env) (env_start env))
                 (chargedResult env key ip userId isValidKey rateLimit weight
                    route bucket charge).
Proof.
  unfold rateLimitRequest. intros Hrun.
  destruct (getKey r) as [key ip] eqn:Ekey.
  destruct (lookupCaller st key) as [[userId isValidKey] rateLimit] eqn:Elook.
  destruct (getWeight st r) as [[[weight route] bucket] | e | m] eqn:Eweight;
    [| discriminate | discriminate].
  exists key, ip, userId, isValidKey, rateLimit, weight, route, bucket.
  unfold redis.Exec in Hrun.
  destruct (env_conn env) as [| n].
  - destruct (redis.run _ _ _) as [s' rs] eqn:Erun.
    destruct (redis.firstErr rs) eqn:Eerr; [discriminate |].
    inversion Hrun; subst. exists rs. cbv zeta. repeat split; auto.
  - destruct (redis.run _ _ _) as [s' rs]. discriminate.
Qed.

(** The result of a charged request: the reported values are those of
    [checkWindows] on the counters after the increment, starting from a
    blank report; the other fields identify the caller and the keys. *)
Lemma rateLimitRequest_charged st store env r store1 rl :
  rateLimitRequest st store env r = (store1, Val rl) ->
  let q := quotaOf st rl in
  let w := res_Weight rl in
  let now := env_redisNow env in
  exists res0,
    rl = checkWindows q
           (postIncrement env store (secondKeyOf rl) w)
           (postIncrement env store (hourKeyOf rl) w)
           (postIncrement env store (monthKeyOf rl) w)
           (time.Sub (nextHourUtc env) (env_start env))
           (time.Sub (nextMonthUtc env) (env_start env)) res0
    /\ report res0 = (0, 0, 0, "")
    /\ res_Weight res0 = w
    /\ res_Time rl = env_start env
    /\ res_RedisKeys rl
       = (if 0 <? Hour q
          then [ {| rk_Key := hourKeyOf rl; rk_ExpireAt := hourExpireAt env |} ]
          else [])
         ++ (if 0 <? Month q
             then [ {| rk_Key := monthKeyOf rl; rk_ExpireAt := monthExpireAt env |} ]
             else [])
    /\ res_RedisStatsKey rl
       = statsKey (env_start env) (res_IsValidKey rl) (res_UserId rl) (res_Route rl)
    /\ ((0 <? Hour q) = true ->
        now < time.FromUnix (time.Unix (hourExpireAt env)) ->
        store1 !! hourKeyOf rl
        = Some {| redis.val := postIncrement env store (hourKeyOf rl) w;
                  redis.expire :=
                    Some (time.FromUnix (time.Unix (hourExpireAt env))) |})
    /\ ((0 <? Month q) = true ->
        now < time.FromUnix (time.Unix (monthExpireAt env)) ->
        store1 !! monthKeyOf rl
        = Some {| redis.val := postIncrement env store (monthKeyOf rl) w;
                  redis.expire :=
                    Some (time.FromUnix (time.Unix (monthExpireAt env))) |})
    /\ redis.counter now store1 (res_RedisStatsKey rl)
       = redis.counter now store (res_RedisStatsKey rl) + 1.
Proof.
  intros Hrun.
  destruct (rateLimitRequest_Val _ _ _ _ _ _ Hrun)
    as (key & ip & userId & isValidKey & rateLimit & weight & route & bucket
        & replies & Hkey & Hlook & Hweight & Hconn & Hexec & Herr & Hrl).
  set (q0 := load (heap st) rateLimit) in *.
  set (charge := requestCharge q0 env weight route bucket userId isValidKey) in *.
  set (res0 := chargedResult env key ip userId isValidKey rateLimit weight
                 route bucket charge) in *.
  destruct (checkWindows_fields q0
              (cmdVal replies (ch_rateLimitSecond charge))
              (cmdVal replies (ch_rateLimitHour charge))
              (cmdVal replies (ch_rateLimitMonth charge))
              (time.Sub (nextHourUtc env) (env_start env))
              (time.Sub (nextMonthUtc env) (env_start env)) res0)
    as (FT & FW & FR & FV & FU & FK & FS & FL & FB).
  rewrite <- Hrl in FT, FW, FR, FV, FU, FK, FS, FL, FB.
  cbn in FT, FW, FR, FV, FU, FK, FS, FL, FB.
  unfold quotaOf, secondKeyOf, hourKeyOf, monthKeyOf, postIncrement.
  rewrite FT, FW, FU, FK, FS, FL, FB, FV, FR. fold q0.
  unfold charge, requestCharge in Hexec, Herr, Hrl.
  destruct (charge_run q0 env weight
              (rateLimitSecondKey bucket userId)
              (rateLimitHourKey (env_start env) bucket userId)
              (rateLimitMonthKey (env_start env) bucket userId)
              (statsKey (env_start env) isValidKey userId route)
              (env_redisNow env) store store1 replies
              (secondKey_hourKey _ _ _ _ _) (secondKey_monthKey _ _ _ _ _)
              (secondKey_statsKey _ _ _ _ _ _) (hourKey_monthKey _ _ _ _ _ _)
              (hourKey_statsKey _ _ _ _ _ _ _) (monthKey_statsKey _ _ _ _ _ _ _)
              Hexec Herr)
    as (VS & VH & VM & Vst & _).
  exists res0. split.
  { rewrite Hrl. unfold charge, requestCharge. apply checkWindows_congr.
    - intros E. by apply VS.
    - intros E. by apply VH.
    - intros E. by apply VM. }
  split; [reflexivity |]. split; [reflexivity |]. split; [reflexivity |].
  split.
  { unfold charge, requestCharge.
    by destruct (buildCharge_shape q0 env weight
                   (rateLimitSecondKey bucket userId)
                   (rateLimitHourKey (env_start env) bucket userId)
                   (rateLimitMonthKey (env_start env) bucket userId)
                   (statsKey (env_start env) isValidKey userId route))
      as (_ & _ & _ & _ & ->). }
  split; [reflexivity |].
  split; [intros E; by apply VH |].
  split; [intros E; by apply VM |].
  unfold redis.counter at 1. by rewrite Vst.
Qed.

End PipelineFacts.

(** ** The refund pipeline *)

Section Refund.
Implicit Types (s : gmap string redis.Entry) (k : string) (now : time.Time).

Lemma run_decr_expireAt now s k w E s' rs :
  redis.run now s [redis.DecrBy k w; redis.ExpireAt k E] = (s', rs) ->
  redis.firstErr rs = None ->
  (forall k', k <> k' -> s' !! k' = s !! k')
  /\ (now < time.FromUnix (time.Unix E) ->
      s' !! k = Some {| redis.val := redis.counter now s k - w;
                        redis.expire := Some (time.FromUnix (time.Unix E)) |}).
Proof.
  intros Hrun Herr.
  destruct (w =? min_int64) eqn:Hmin.
  - cbn in Hrun. rewrite Hmin in Hrun.
    destruct (redis.live now s k); inversion Hrun; subst; discriminate.
  - assert (Hrun' : redis.run now s [redis.IncrBy k (- w); redis.ExpireAt k E]
                    = (s', rs)).
    { cbn in *. by rewrite Hmin in Hrun. }
    destruct (run_incr_expireAt now s k (- w) E s' rs Hrun' Herr)
      as (_ & _ & Hframe & Hentry).
    split; [done |]. intros Hfut. rewrite (Hentry Hfut). do 2 f_equal. 
Qed.

Lemma decrSegment_run (on : bool) w k E now s s' rs :
  redis.run now s
    (if on then [redis.DecrBy k w; redis.ExpireAt k E] else []) = (s', rs) ->
  redis.firstErr rs = None ->
  (forall k', k <> k' -> s' !! k' = s !! k')
  /\ (on = true -> now < time.FromUnix (time.Unix E) ->
      s' !! k = Some {| redis.val := redis.counter now s k - w;
                        redis.expire := Some (time.FromUnix (time.Unix E)) |}).
Proof.
  destruct on.
  - intros Hrun Herr.
    destruct (run_decr_expireAt now s k w E s' rs Hrun Herr) as [Hf He].
    split; [done |]. by intros _.
  - cbn. intros [= <- <-] _. split; [done | discriminate].
Qed.

Lemma run_decr1 now s k s' rs :
  redis.run now s [redis.DecrBy k 1] = (s', rs) ->
  redis.firstErr rs = None ->
  (forall k', k <> k' -> s' !! k' = s !! k')
  /\ redis.counter now s' k = redis.counter now s k - 1.
Proof.
  intros Hrun Herr.
  assert (Hrun' : redis.run now s [redis.IncrBy k (-1)] = (s', rs)) by exact Hrun.
  cbn in Hrun'.
  pose proof (incrby_reply now s k (-1)) as Hr.
  pose proof (incrby_live now s k (-1)) as Hl.
  pose proof (fun k' => incrby_other now s k (-1) k') as Ho.
  destruct (redis.incrby now s k (-1)) as [s1 r1]. cbn in *.
  inversion Hrun'; subst s' rs. clear Hrun'.
  destruct (in_int64 (redis.counter now s k + -1)) eqn:Hin; subst r1;
    [| discriminate].
  destruct (Hl eq_refl) as (ttl & Hlive & _).
  split; [intros k' Hne; by apply Ho |].
  unfold redis.counter at 1. rewrite Hlive. cbn. lia.
Qed.

(** The refund of a request whose hour and month windows are enforced as
    [eH] and [eM] say. *)
Lemma refund_run (eH eM : bool) w kH kM ks EH EM now s s' rs :
  kH <> kM -> kH <> ks -> kM <> ks ->
  redis.run now s
    ((if eH then [redis.DecrBy kH w; redis.ExpireAt kH EH] else [])
     ++ (if eM then [redis.DecrBy kM w; redis.ExpireAt kM EM] else [])
     ++ [redis.DecrBy ks 1]) = (s', rs) ->
  redis.firstErr rs = None ->
  (eH = true -> now < time.FromUnix (time.Unix EH) ->
   s' !! kH = Some {| redis.val := redis.counter now s kH - w;
                      redis.expire := Some (time.FromUnix (time.Unix EH)) |})
  /\ (eM = true -> now < time.FromUnix (time.Unix EM) ->
      s' !! kM = Some {| redis.val := redis.counter now s kM - w;
                         redis.expire := Some (time.FromUnix (time.Unix EM)) |})
  /\ redis.counter now s' ks = redis.counter now s ks - 1
  /\ (forall k', kH <> k' -> kM <> k' -> ks <> k' -> s' !! k' = s !! k').
Proof.
  intros HHM HHs HMs Hrun Herr.
  rewrite run_app in Hrun.
  destruct (redis.run now s (if eH then _ else _)) as [s1 r1] eqn:E1.
  rewrite run_app in Hrun.
  destruct (redis.run now s1 (if eM then _ else _)) as [s2 r2] eqn:E2.
  destruct (redis.run now s2 [redis.DecrBy ks 1]) as [s3 r3] eqn:E3.
  inversion Hrun; subst s' rs. clear Hrun.
  apply firstErr_app in Herr as [Herr1 Herr].
  apply firstErr_app in Herr as [Herr2 Herr3].
  destruct (decrSegment_run eH w kH EH now s s1 r1 E1 Herr1) as [F1 V1].
  destruct (decrSegment_run eM w kM EM now s1 s2 r2 E2 Herr2) as [F2 V2].
  destruct (run_decr1 now s2 ks s3 r3 E3 Herr3) as [F3 V3].
  split; [| split; [| split]].
  - intros HeH Hfut. rewrite F3, F2 by done. by apply V1.
  - intros HeM Hfut. rewrite F3 by done. rewrite (V2 HeM Hfut).
    by rewrite (counter_ext now s1 s kM (F1 kM HHM)).
  - rewrite V3. f_equal. apply counter_ext. rewrite F2, F1; done.
  - intros k' N1 N2 N3. rewrite F3, F2, F1; done.
Qed.

End Refund.

(** ** Expiry instants are whole seconds *)

Lemma FromUnix_Unix_whole (t : time.Time) :
  t mod time.Second = 0 -> time.FromUnix (time.Unix t) = t.
Proof.
  unfold time.FromUnix, time.Unix, time.Second. intros Hm.
  Z.div_mod_to_equations. lia.
Qed.

Lemma hourExpireAt_whole (env : Env) :
  time.FromUnix (time.Unix (hourExpireAt env)) = hourExpireAt env.
Proof.
  apply FromUnix_Unix_whole.
  unfold hourExpireAt, nextHourUtc, time.Add, time.Truncate, time.Hour, time.Second.
  Z.div_mod_to_equations. lia.
Qed.

Lemma monthExpireAt_whole (env : Env) :
  time.FromUnix (time.Unix (monthExpireAt env)) = monthExpireAt env.
Proof.
  apply FromUnix_Unix_whole.
  unfold monthExpireAt, nextMonthUtc, time.Add, time.Date, time.FromUnix.
  generalize (time.days_from_civil
                (time.Year (env_start env) + (time.Month (env_start env) + 1 - 1) / 12)
                ((time.Month (env_start env) + 1 - 1) mod 12 + 1) 1).
  intros d. unfold time.secondsPerDay, time.Second.
  Z.div_mod_to_equations. lia.
Qed.

(** ** Post-response reconciliation *)

Section Reconcile.
Context `{ExternalLibs}.

Lemma refundCmds_shape (rl : RateLimitResult) (eH eM : bool) kH kM EH EM :
  res_RedisKeys rl
  = (if eH then [ {| rk_Key := kH; rk_ExpireAt := EH |} ] else [])
    ++ (if eM then [ {| rk_Key := kM; rk_ExpireAt := EM |} ] else []) ->
  refundCmds rl
  = (if eH then [redis.DecrBy kH (res_Weight rl); redis.ExpireAt kH EH] else [])
    ++ (if eM then [redis.DecrBy kM (res_Weight rl); redis.ExpireAt kM EM] else [])
    ++ [redis.DecrBy (res_RedisStatsKey rl) 1].
Proof. unfold refundCmds. intros ->. by destruct eH, eM. Qed.

Lemma Exec_other now conn s cmds k :
  Forall (fun c => redis.cmdKey c <> k) cmds ->
  (redis.Exec now conn s cmds).1.1 !! k = s !! k.
Proof.
  intros Hall. unfold redis.Exec. destruct conn as [| n].
  - pose proof (run_other now cmds s k Hall) as Hr.
    by destruct (redis.run now s cmds).
  - pose proof (run_other now (take n cmds) s k (Forall_take _ n _ Hall)) as Hr.
    by destruct (redis.run now s (take n cmds)).
Qed.

Lemma Exec_ok now conn s cmds s' rs :
  redis.Exec now conn s cmds = (s', rs, None) ->
  redis.run now s cmds = (s', rs) /\ redis.firstErr rs = None.
Proof.
  unfold redis.Exec. destruct conn as [| n].
  - destruct (redis.run now s cmds) as [s1 rs1]. by intros [= <- <- ->].
  - by destruct (redis.run now s (take n cmds)).
Qed.

Lemma postIncrement_eq env store k w :
  postIncrement env store k w = redis.counter (env_redisNow env) store k + w.
Proof. reflexivity. Qed.

Lemma enforced_eq limit : enforced limit = (0 <? limit).
Proof. reflexivity. Qed.

(** The reconciliation of a result whose charged keys are the hour key [kH]
    (when [eH]) and the month key [kM] (when [eM]), on a store [store1] that
    holds for each of them the value before the request plus the weight. *)
Lemma reconcile_core (rl : RateLimitResult) (eH eM : bool)
  (kH kM kS : string) (EH EM t1 now2 : time.Time) (conn : redis.Conn)
  (status : Z) (store store1 : gmap string redis.Entry) :
  res_RedisKeys rl
  = (if eH then [ {| rk_Key := kH; rk_ExpireAt := EH |} ] else [])
    ++ (if eM then [ {| rk_Key := kM; rk_ExpireAt := EM |} ] else []) ->
  kH <> kM -> kH <> res_RedisStatsKey rl -> kM <> res_RedisStatsKey rl ->
  kH <> kS -> kM <> kS -> res_RedisStatsKey rl <> kS ->
  time.FromUnix (time.Unix EH) = EH ->
  time.FromUnix (time.Unix EM) = EM ->
  (eH = true -> t1 < EH ->
   store1 !! kH = Some {| redis.val := redis.counter t1 store kH + res_Weight rl;
                          redis.expire := Some EH |}) ->
  (eM = true -> t1 < EM ->
   store1 !! kM = Some {| redis.val := redis.counter t1 store kM + res_Weight rl;
                          redis.expire := Some EM |}) ->
  let post := postRateLimit now2 conn store1 rl status in
  (status = 200 -> post = (store1, [], None))
  /\ (status <> 200 ->
      post.1.2
      = flat_map (fun k => [redis.DecrBy (rk_Key k) (res_Weight rl);
                            redis.ExpireAt (rk_Key k) (rk_ExpireAt k)])
                 (res_RedisKeys rl)
        ++ [redis.DecrBy (res_RedisStatsKey rl) 1]
      /\ Forall (fun c => redis.cmdKey c <> kS) post.1.2
      /\ post.1.1 !! kS = store1 !! kS
      /\ (post.2 = None ->
          t1 <= now2 ->
          (forall k, k ∈ res_RedisKeys rl -> now2 < rk_ExpireAt k) ->
          (forall k, k ∈ res_RedisKeys rl ->
             redis.counter now2 post.1.1 (rk_Key k)
             = redis.counter t1 store (rk_Key k))
          /\ redis.counter now2 post.1.1 (res_RedisStatsKey rl)
             = redis.counter now2 store1 (res_RedisStatsKey rl) - 1)).
Proof.
  intros Hkeys NHM NHs NMs NSH NSM NSs WH WM HeH HeM post.
  split.
  { intros ->. reflexivity. }
  intros Hstatus.
  assert (Hne : (status =? 200) = false) by lia.
  assert (Hpost : post = (let '(s', _, err) :=
                            redis.Exec now2 conn store1 (refundCmds rl) in
                          (s', refundCmds rl, err))).
  { unfold post, postRateLimit. by rewrite Hne. }
  pose proof (refundCmds_shape rl eH eM kH kM EH EM Hkeys) as Hshape.
  assert (Hsecond : Forall (fun c => redis.cmdKey c <> kS) (refundCmds rl)).
  { rewrite Hshape. destruct eH, eM; repeat constructor; assumption. }
  destruct (redis.Exec now2 conn store1 (refundCmds rl)) as [[s2 rs] err] eqn:Eexec.
  rewrite Hpost. cbn [fst snd].
  split; [reflexivity |]. split; [exact Hsecond |].
  split.
  { pose proof (Exec_other now2 conn store1 _ _ Hsecond) as Ho.
    by rewrite Eexec in Ho. }
  intros -> Hle Hfuture.
  apply Exec_ok in Eexec as [Hrun Herr].
  rewrite Hshape in Hrun.
  assert (HfH : eH = true -> now2 < EH).
  { intros E.
    apply (Hfuture {| rk_Key := kH; rk_ExpireAt := EH |}).
    rewrite Hkeys, E. apply elem_of_app. left. apply list_elem_of_here. }
  assert (HfM : eM = true -> now2 < EM).
  { intros E.
    apply (Hfuture {| rk_Key := kM; rk_ExpireAt := EM |}).
    rewrite Hkeys, E. apply elem_of_app. right. apply list_elem_of_here. }
  destruct (refund_run eH eM (res_Weight rl) kH kM (res_RedisStatsKey rl)
              EH EM now2 store1 s2 rs NHM NHs NMs Hrun Herr)
    as (RH & RM & RS & _).
  rewrite WH in RH. rewrite WM in RM.
  split; [| exact RS].
  intros k Hk. rewrite Hkeys in Hk. apply elem_of_app in Hk as [Hk | Hk].
  - destruct eH; [| by apply elem_of_nil in Hk].
    apply list_elem_of_singleton in Hk as ->. cbn [rk_Key].
    specialize (HfH eq_refl).
    assert (Ht1 : t1 < EH) by lia.
    specialize (HeH eq_refl Ht1). specialize (RH eq_refl HfH).
    unfold redis.counter at 1.
    rewrite (live_intro now2 s2 _ _ RH) by exact HfH. cbn [redis.val].
    unfold redis.counter at 1.
    rewrite (live_intro now2 store1 _ _ HeH) by exact HfH. cbn [redis.val].
    lia.
  - destruct eM; [| by apply elem_of_nil in Hk].
    apply list_elem_of_singleton in Hk as ->. cbn [rk_Key].
    specialize (HfM eq_refl).
    assert (Ht1 : t1 < EM) by lia.
    specialize (HeM eq_refl Ht1). specialize (RM eq_refl HfM).
    unfold redis.counter at 1.
    rewrite (live_intro now2 s2 _ _ RM) by exact HfM. cbn [redis.val].
    unfold redis.counter at 1.
    rewrite (live_intro now2 store1 _ _ HeM) by exact HfM. cbn [redis.val].
    lia.
Qed.

Lemma hourKeyOf_monthKeyOf rl : hourKeyOf rl <> monthKeyOf rl.
Proof. unfold hourKeyOf, monthKeyOf. apply hourKey_monthKey. Qed.

Lemma hourKeyOf_secondKeyOf rl : hourKeyOf rl <> secondKeyOf rl.
Proof.
  unfold hourKeyOf, secondKeyOf. intros E. symmetry in E. revert E.
  apply secondKey_hourKey.
Qed.

Lemma monthKeyOf_secondKeyOf rl : monthKeyOf rl <> secondKeyOf rl.
Proof.
  unfold monthKeyOf, secondKeyOf. intros E. symmetry in E. revert E.
  apply secondKey_monthKey.
Qed.

Lemma hourKeyOf_statsKey rl t v u rt : hourKeyOf rl <> statsKey t v u rt.
Proof. unfold hourKeyOf. apply hourKey_statsKey. Qed.

Lemma monthKeyOf_statsKey rl t v u rt : monthKeyOf rl <> statsKey t v u rt.
Proof. unfold monthKeyOf. apply monthKey_statsKey. Qed.

Lemma statsKey_secondKeyOf rl t v u rt : statsKey t v u rt <> secondKeyOf rl.
Proof.
  unfold secondKeyOf. intros E. symmetry in E. revert E.
  apply secondKey_statsKey.
Qed.

(** C3.  For a charged request, [postRateLimit] with the status 200 sends
    nothing and leaves the store alone.  With any other status it sends, for
    each hour and month key that was charged, DECRBY by the weight and the
    EXPIREAT of the charge, and then DECRBY 1 on the stats key; no command
    names the per-second key, whose entry stays as charged.  When that
    pipeline goes through before the keys expire, each hour and month counter
    is back at its value before the request and the stats counter is one
    lower than after the charge. *)
Theorem postRateLimit_reconciles :
  forall st store env r store1 rl now2 conn status,
    rateLimitRequest st store env r = (store1, Val rl) ->
    let post := postRateLimit now2 conn store1 rl status in
    let q := quotaOf st rl in
    let w := res_Weight rl in
    (status = 200 -> post = (store1, [], None))
    /\ (status <> 200 ->
        post.1.2
        = flat_map (fun k => [redis.DecrBy (rk_Key k) w;
                              redis.ExpireAt (rk_Key k) (rk_ExpireAt k)])
                   (res_RedisKeys rl)
          ++ [redis.DecrBy (res_RedisStatsKey rl) 1]
        /\ res_RedisKeys rl
           = (if enforced (Hour q)
              then [ {| rk_Key := hourKeyOf rl; rk_ExpireAt := hourExpireAt env |} ]
              else [])
             ++ (if enforced (Month q)
                 then [ {| rk_Key := monthKeyOf rl;
                           rk_ExpireAt := monthExpireAt env |} ]
                 else [])
        /\ Forall (fun c => redis.cmdKey c <> secondKeyOf rl) post.1.2
        /\ post.1.1 !! secondKeyOf rl = store1 !! secondKeyOf rl
        /\ (post.2 = None ->
            env_redisNow env <= now2 ->
            (forall k, k ∈ res_RedisKeys rl -> now2 < rk_ExpireAt k) ->
            (forall k, k ∈ res_RedisKeys rl ->
               redis.counter now2 post.1.1 (rk_Key k)
               = redis.counter (env_redisNow env) store (rk_Key k))
            /\ redis.counter now2 post.1.1 (res_RedisStatsKey rl)
               = redis.counter now2 store1 (res_RedisStatsKey rl) - 1)).
Proof.
  intros st store env r store1 rl now2 conn status Hreq post q w.
  destruct (rateLimitRequest_charged st store env r store1 rl Hreq)
    as (res0 & _ & _ & _ & _ & Hkeys & Hstats & HeH & HeM & _).
  rewrite hourExpireAt_whole in HeH. rewrite monthExpireAt_whole in HeM.
  rewrite postIncrement_eq in HeH. rewrite postIncrement_eq in HeM.
  rewrite <- !enforced_eq in Hkeys, HeH, HeM.
  assert (NHs : hourKeyOf rl <> res_RedisStatsKey rl)
    by (rewrite Hstats; apply hourKeyOf_statsKey).
  assert (NMs : monthKeyOf rl <> res_RedisStatsKey rl)
    by (rewrite Hstats; apply monthKeyOf_statsKey).
  assert (NSs : res_RedisStatsKey rl <> secondKeyOf rl)
    by (rewrite Hstats; apply statsKey_secondKeyOf).
  destruct (reconcile_core rl _ _ _ _ (secondKeyOf rl) _ _ (env_redisNow env)
              now2 conn status store store1 Hkeys
              (hourKeyOf_monthKeyOf rl) NHs NMs
              (hourKeyOf_secondKeyOf rl) (monthKeyOf_secondKeyOf rl) NSs
              (hourExpireAt_whole env) (monthExpireAt_whole env) HeH HeM)
    as [C200 Cother].
  split; [exact C200 |].
  intros Hstatus. destruct (Cother Hstatus) as (C1 & C2 & C3 & C4).
  split; [exact C1 |]. split; [exact Hkeys |]. split; [exact C2 |].
  split; [exact C3 | exact C4].
Qed.

End Reconcile.

Lemma exampleCharged_eq :
  @rateLimitRequest exampleLibs initState ∅ exampleEnv exampleRequest
  = (exampleCharged.1, Val exampleResult).
Proof. vm_compute. reflexivity. Qed.

Lemma postRateLimit_reconciles_witness :
  redis.counter exampleLater
    (postRateLimit exampleLater redis.Healthy exampleCharged.1 exampleResult 500).1.1
    "ratelimit:hour:2024-01-01-10:default:-1"
  = redis.counter (env_redisNow exampleEnv) ∅
      "ratelimit:hour:2024-01-01-10:default:-1".
Proof.
  destruct (@postRateLimit_reconciles exampleLibs initState ∅ exampleEnv
              exampleRequest exampleCharged.1 exampleResult exampleLater
              redis.Healthy 500 exampleCharged_eq) as [_ Hrefund].
  destruct (Hrefund ltac:(discriminate)) as (_ & _ & _ & _ & Hnet).
  assert (Herr : (postRateLimit exampleLater redis.Healthy exampleCharged.1
                    exampleResult 500).2 = None) by (vm_compute; reflexivity).
  assert (Hle : env_redisNow exampleEnv <= exampleLater) by (vm_compute; discriminate).
  assert (Hfut : forall k, k ∈ res_RedisKeys exampleResult ->
                           exampleLater < rk_ExpireAt k).
  { intros k Hk. apply list_elem_of_singleton in Hk as ->. reflexivity. }
  destruct (Hnet Herr Hle Hfut) as [Hkeys _].
  exact (Hkeys {| rk_Key := "ratelimit:hour:2024-01-01-10:default:-1";
                  rk_ExpireAt := 1704106860000000000 |}
               (list_elem_of_here _ _)).
Defined.

(** ** The calendar: the next month starts after any instant of the month *)

(** The year of the era and the day of that year, for a day [doe] of an era. *)
Lemma year_of_era (doe : Z) :
  0 <= doe < 146097 ->
  let yoe := (doe - doe / 1460 + doe / 36524 - doe / 146096) / 365 in
  let doy := doe - (365 * yoe + yoe / 4 - yoe / 100) in
  0 <= yoe <= 399
  /\ 0 <= doy <= 365
  /\ (yoe < 399 -> doe < 365 * (yoe + 1) + (yoe + 1) / 4 - (yoe + 1) / 100).
Proof.
  intros Hdoe yoe doy. unfold doy, yoe.
  split; [| split]; Z.div_mod_to_equations; lia.
Qed.

Lemma month_of_year (doy : Z) :
  0 <= doy <= 365 ->
  let mp := (5 * doy + 2) / 153 in
  0 <= mp <= 11 /\ doy < (153 * (mp + 1) + 2) / 5.
Proof. intros Hdoy mp. unfold mp. split; Z.div_mod_to_equations; lia. Qed.

(** The next month starts after the day: within the era when the month is
    not February, by the length of the year of the era when it is. *)
Lemma nextMonthDay_after (z : Z) : z < time.nextMonthDay z.
Proof.
  unfold time.nextMonthDay, time.civil_from_days. cbv zeta.
  set (era := (z + 719468) / 146097).
  set (doe := z + 719468 - era * 146097).
  assert (Hdoe : 0 <= doe < 146097).
  { unfold doe, era. Z.div_mod_to_equations. lia. }
  destruct (year_of_era doe Hdoe) as (Hyoe & Hdoy & Hnext).
  set (yoe := (doe - doe / 1460 + doe / 36524 - doe / 146096) / 365) in *.
  set (doy := doe - (365 * yoe + yoe / 4 - yoe / 100)) in *.
  destruct (month_of_year doy Hdoy) as (Hmp & Hmonth).
  set (mp := (5 * doy + 2) / 153) in *.
  assert (Hz : z = era * 146097 + (365 * yoe + yoe / 4 - yoe / 100 + doy) - 719468).
  { unfold doy, doe. lia. }
  assert (Hsplit : doe = 365 * yoe + yoe / 4 - yoe / 100 + doy).
  { unfold doy. lia. }
  clearbody mp doy yoe doe era.
  rewrite Hz at 1. clear Hz Hdoe.
  assert (Hcase : mp < 9 \/ mp = 9 \/ mp = 10 \/ mp = 11) by lia.
  unfold time.days_from_civil.
  destruct Hcase as [Hc | [-> | [-> | ->]]].
  - destruct (Z.ltb_spec mp 10); [| lia].
    destruct (Z.leb_spec (mp + 3) 2); [lia |].
    replace ((mp + 3) / 12) with 0 by (Z.div_mod_to_equations; lia).
    replace ((mp + 3) mod 12 + 1) with (mp + 4) by (Z.div_mod_to_equations; lia).
    destruct (Z.leb_spec (mp + 4) 2); [lia |].
    destruct (Z.ltb_spec 2 (mp + 4)); [| lia].
    cbv zeta. replace (mp + 4 - 3) with (mp + 1) by lia.
    replace ((yoe + era * 400 + 0 + 0) / 400) with era
      by (Z.div_mod_to_equations; lia).
    Z.div_mod_to_equations. lia.
  - change (9 <? 10) with true. cbv iota.
    change ((9 + 3) mod 12 + 1) with 1. change ((9 + 3) / 12) with 1.
    change (9 + 3 <=? 2) with false. change (1 <=? 2) with true.
    change (2 <? 1) with false. cbv iota.
    replace ((yoe + era * 400 + 0 + 1 - 1) / 400) with era
      by (Z.div_mod_to_equations; lia).
    change ((153 * (1 + 9) + 2) / 5) with 306.
    change ((153 * (9 + 1) + 2) / 5) with 306 in Hmonth.
    replace (yoe + era * 400 + 0 + 1 - 1 - era * 400) with yoe by lia. lia.
  - change (10 <? 10) with false. cbv iota.
    change ((10 - 9) mod 12 + 1) with 2. change ((10 - 9) / 12) with 0.
    change (10 - 9 <=? 2) with true. change (2 <=? 2) with true.
    change (2 <? 2) with false. cbv iota.
    replace ((yoe + era * 400 + 1 + 0 - 1) / 400) with era
      by (Z.div_mod_to_equations; lia).
    change ((153 * (2 + 9) + 2) / 5) with 337.
    change ((153 * (10 + 1) + 2) / 5) with 337 in Hmonth.
    replace (yoe + era * 400 + 1 + 0 - 1 - era * 400) with yoe by lia. lia.
  - change (11 <? 10) with false. cbv iota.
    change ((11 - 9) mod 12 + 1) with 3. change ((11 - 9) / 12) with 0.
    change (11 - 9 <=? 2) with true. change (3 <=? 2) with false.
    change (2 <? 3) with true. cbv iota.
    change ((153 * (3 - 3) + 2) / 5) with 0.
    destruct (Z.eq_dec yoe 399) as [-> | Hne].
    + replace ((399 + era * 400 + 1 + 0) / 400) with (era + 1)
        by (Z.div_mod_to_equations; lia).
      change (399 / 4) with 99. change (399 / 100) with 3.
      replace (399 + era * 400 + 1 + 0 - (era + 1) * 400) with 0 by lia.
      change (0 / 4) with 0. change (0 / 100) with 0. lia.
    + replace ((yoe + era * 400 + 1 + 0) / 400) with era
        by (Z.div_mod_to_equations; lia).
      replace (yoe + era * 400 + 1 + 0 - era * 400) with (yoe + 1) by lia.
      specialize (Hnext ltac:(lia)). lia.
Qed.

(** The first instant of the next month is later than [t]. *)
Lemma nextMonth_after (t : time.Time) :
  t < time.Date (time.Year t) (time.Month t + 1) 1.
Proof.
  pose proof (nextMonthDay_after (time.unixDay t)) as Hday.
  unfold time.Date, time.Year, time.Month, time.nextMonthDay in *.
  destruct (time.civil_from_days (time.unixDay t)) as [[y m] d]. cbn [fst snd].
  replace (m + 1 - 1) with m by lia.
  revert Hday. generalize (time.days_from_civil (y + m / 12) (m mod 12 + 1) 1).
  intros n Hn.
  unfold time.unixDay, time.Unix, time.FromUnix, time.secondsPerDay, time.Second in *.
  Z.div_mod_to_equations. lia.
Qed.

(** ** The middleware *)

Section MiddlewareFacts.
Context `{ExternalLibs}.

Lemma rateLimitHeaders_only_headers q rl :
  Forall only429 (rateLimitHeaders q rl)
  /\ rejected429 (rateLimitHeaders q rl) = false
  /\ handlerInvoked (rateLimitHeaders q rl) = false.
Proof.
  unfold rateLimitHeaders.
  destruct (0 <? Second q), (0 <? Hour q), (0 <? Month q); cbn;
    repeat split; repeat constructor.
Qed.

Lemma logPost_silent err :
  Forall only429 (logPost err)
  /\ rejected429 (logPost err) = false
  /\ handlerInvoked (logPost err) = false.
Proof. destruct err; cbn; repeat split; repeat constructor. Qed.

Lemma rejected429_app a b : rejected429 (a ++ b) = rejected429 a || rejected429 b.
Proof. apply existsb_app. Qed.

Lemma handlerInvoked_app a b :
  handlerInvoked (a ++ b) = handlerInvoked a || handlerInvoked b.
Proof. apply existsb_app. Qed.

(** The middleware on a charged request: the headers, then either the 429 or
    the wrapped handler, decided by the weight against the remaining. *)
Lemma HttpMiddleware_charged next sel e st store clients r store1 rl :
  sel r = true ->
  mw_redisIsHealthy e = true ->
  rateLimitRequest st store (mw_env e) r = (store1, Val rl) ->
  let out := HttpMiddleware next sel e st store clients r in
  rejected429 (out_events out) = (res_Remaining rl <? res_Weight rl)
  /\ handlerInvoked (out_events out) = negb (res_Remaining rl <? res_Weight rl)
  /\ Forall only429 (out_events out)
  /\ out_panic out = None.
Proof.
  intros Hsel Hhealthy Hreq. unfold HttpMiddleware.
  rewrite Hsel, Hhealthy, Hreq. cbn [negb].
  destruct (rateLimitHeaders_only_headers (load (heap st) (res_RateLimit rl)) rl)
    as (A1 & A2 & A3).
  destruct (res_Remaining rl <? res_Weight rl).
  - destruct (postRateLimit _ _ _ _ _) as [[s2 cmds] err].
    destruct (logPost_silent err) as (B1 & B2 & B3). cbn [out_events out_panic].
    rewrite !rejected429_app, !handlerInvoked_app, A2, A3, B2, B3.
    split; [reflexivity |]. split; [reflexivity |]. split; [| reflexivity].
    apply Forall_app. split; [done |]. apply Forall_app. split; [| done].
    repeat constructor.
  - destruct (postRateLimit _ _ _ _ _) as [[s2 cmds] err].
    destruct (logPost_silent err) as (B1 & B2 & B3). cbn [out_events out_panic].
    rewrite !rejected429_app, !handlerInvoked_app, A2, A3, B2, B3.
    split; [reflexivity |]. split; [reflexivity |]. split; [| reflexivity].
    apply Forall_app. split; [done |]. apply Forall_app. split; [| done].
    repeat constructor.
Qed.

(** A round-trip that is cut makes [rateLimitRequest] return an error, for
    any request whose route is known. *)
Lemma lost_connection_is_error st store env r n route :
  env_conn env = redis.BrokenAfter n ->
  getRoute r = Val route ->
  exists store1 err, rateLimitRequest st store env r = (store1, Error err).
Proof.
  intros Hconn Hroute. unfold rateLimitRequest, getWeight. rewrite Hroute.
  destruct (getKey r) as [key ip].
  destruct (lookupCaller st key) as [[userId isValidKey] rateLimit].
  unfold redis.Exec. rewrite Hconn.
  destruct (redis.run _ _ _) as [s' rs]. eauto.
Qed.

(** C5.  Whatever the request and its surroundings, every response the
    middleware writes itself is a 429.  When charging fails, the middleware
    logs, calls the wrapped handler on the plain writer and does nothing
    else: no header is set, no 429 is written and no reconciliation runs. *)
Theorem charging_failure_fails_open :
  forall (next : Handler) (sel : Request -> bool) (e : MwEnv) (st : State)
         (store : gmap string redis.Entry)
         (clients : gmap string FallbackRateLimiterClient) (r : Request),
    let out := HttpMiddleware next sel e st store clients r in
    Forall only429 (out_events out)
    /\ (forall store1 err,
          sel r = true ->
          mw_redisIsHealthy e = true ->
          rateLimitRequest st store (mw_env e) r = (store1, Error err) ->
          out_events out
          = [LogError "error getting rate limit"; ServeNext false (next r)]
          /\ handlerInvoked (out_events out) = true
          /\ setsHeader (out_events out) = false
          /\ rejected429 (out_events out) = false
          /\ out_store out = store1
          /\ out_panic out = None).
Proof.
  intros next sel e st store clients r out. split.
  - unfold out, HttpMiddleware.
    destruct (sel r) eqn:Hsel; cbn [negb]; [| repeat constructor].
    destruct (mw_redisIsHealthy e) eqn:Hhealthy; cbn [negb].
    + destruct (rateLimitRequest st store (mw_env e) r) as [store1 [rl | err | m]]
        eqn:Hreq.
      * pose proof (HttpMiddleware_charged next sel e st store clients r store1 rl
                      Hsel Hhealthy Hreq) as (_ & _ & Hall & _).
        unfold HttpMiddleware in Hall. by rewrite Hsel, Hhealthy, Hreq in Hall.
      * repeat constructor.
      * constructor.
    + unfold Handle. destruct (getKey r) as [key ip].
      destruct (Allow _ _) as [allowed lim].
      destruct allowed; cbn; repeat constructor.
  - intros store1 err Hsel Hhealthy Hreq. unfold out, HttpMiddleware.
    rewrite Hsel, Hhealthy, Hreq. cbn. auto 10.
Qed.

End MiddlewareFacts.

Lemma charging_failure_fails_open_witness :
  out_events (@HttpMiddleware exampleLibs okHandler DefaultRequestCollector
                brokenEnv initState ∅ ∅ exampleRequest)
  = [LogError "error getting rate limit";
     ServeNext false (okHandler exampleRequest)].
Proof.
  destruct (@charging_failure_fails_open exampleLibs okHandler
              DefaultRequestCollector brokenEnv initState ∅ ∅ exampleRequest)
    as [_ Hopen].
  refine (proj1 (Hopen
            (@rateLimitRequest exampleLibs initState ∅ (mw_env brokenEnv)
               exampleRequest).1
            "redis: connection lost or context done" _ _ _)).
  - reflexivity.
  - reflexivity.
  - vm_compute. reflexivity.
Defined.

(** * Further properties of the package *)

(** ** The response-writer proxy and the refund decision *)

Lemma delegatorStatus_snoc (calls : list WriterCall) (c : WriterCall) :
  delegatorStatus (calls ++ [c]) = delegatorStep (delegatorStatus calls) c.
Proof. unfold delegatorStatus. by rewrite fold_left_app. Qed.

Section MiddlewareMore.
Context `{ExternalLibs}.

(** The outcome of the middleware on a charged request, spelled out. *)
Lemma HttpMiddleware_charged_outcome next sel e st store clients r store1 rl :
  sel r = true ->
  mw_redisIsHealthy e = true ->
  rateLimitRequest st store (mw_env e) r = (store1, Val rl) ->
  let post := fun status =>
    postRateLimit (mw_postNow e) (mw_postConn e) store1 rl status in
  let headers := rateLimitHeaders (load (heap st) (res_RateLimit rl)) rl in
  HttpMiddleware next sel e st store clients r
  = if res_Remaining rl <? res_Weight rl
    then {| out_events :=
              headers
              ++ [SetHeader HeaderRetryAfter (fmt_d (res_Reset rl));
                  HttpError "Too Many Requests" StatusTooManyRequests]
              ++ logPost (post StatusTooManyRequests).2;
            out_store := (post StatusTooManyRequests).1.1;
            out_clients := clients;
            out_panic := None |}
    else {| out_events :=
              headers ++ [ServeNext true (next r)]
              ++ logPost (post (delegatorStatus (next r))).2;
            out_store := (post (delegatorStatus (next r))).1.1;
            out_clients := clients;
            out_panic := None |}.
Proof.
  intros Hsel Hhealthy Hreq post headers. unfold HttpMiddleware.
  rewrite Hsel, Hhealthy, Hreq. cbn [negb]. fold headers.
  destruct (res_Remaining rl <? res_Weight rl).
  - unfold post. by destruct (postRateLimit _ _ _ _ _) as [[s2 cmds] err].
  - unfold post. by destruct (postRateLimit _ _ _ _ _) as [[s2 cmds] err].
Qed.

(** X1.  When the wrapped handler of an admitted request ends with a write
    of the body, the proxy reports the status 200 whatever status the
    handler had set before, and the middleware keeps the charge: the store
    is left as the charge made it and nothing is refunded. *)
Theorem body_write_keeps_the_charge :
  forall next sel e st store clients r store1 rl calls body,
    sel r = true ->
    mw_redisIsHealthy e = true ->
    rateLimitRequest st store (mw_env e) r = (store1, Val rl) ->
    res_Weight rl <= res_Remaining rl ->
    next r = calls ++ [Write body] ->
    let out := HttpMiddleware next sel e st store clients r in
    delegatorStatus (next r) = 200
    /\ out_store out = store1
    /\ out_events out
       = rateLimitHeaders (load (heap st) (res_RateLimit rl)) rl
         ++ [ServeNext true (next r)].
Proof.
  intros next sel e st store clients r store1 rl calls body
    Hsel Hhealthy Hreq Hadm Hnext out.
  assert (Hst : delegatorStatus (next r) = 200).
  { rewrite Hnext, delegatorStatus_snoc. reflexivity. }
  split; [exact Hst |].
  unfold out.
  rewrite (HttpMiddleware_charged_outcome next sel e st store clients r store1 rl
             Hsel Hhealthy Hreq).
  destruct (res_Remaining rl <? res_Weight rl) eqn:Hrej; [lia |].
  rewrite Hst. cbn. split; reflexivity.
Qed.

(** X2.  When the wrapped handler of an admitted request makes no call on
    its writer, the proxy reports the status 0, and the middleware runs the
    refund pipeline as for a failed request. *)
Theorem silent_handler_is_refunded :
  forall next sel e st store clients r store1 rl,
    sel r = true ->
    mw_redisIsHealthy e = true ->
    rateLimitRequest st store (mw_env e) r = (store1, Val rl) ->
    res_Weight rl <= res_Remaining rl ->
    next r = [] ->
    let out := HttpMiddleware next sel e st store clients r in
    delegatorStatus (next r) = 0
    /\ out_store out
       = (redis.Exec (mw_postNow e) (mw_postConn e) store1 (refundCmds rl)).1.1.
Proof.
  intros next sel e st store clients r store1 rl
    Hsel Hhealthy Hreq Hadm Hnext out.
  assert (Hst : delegatorStatus (next r) = 0) by (by rewrite Hnext).
  split; [exact Hst |].
  unfold out.
  rewrite (HttpMiddleware_charged_outcome next sel e st store clients r store1 rl
             Hsel Hhealthy Hreq).
  destruct (res_Remaining rl <? res_Weight rl) eqn:Hrej; [lia |].
  rewrite Hst. cbn [out_store]. unfold postRateLimit. cbn.
  by destruct (redis.Exec _ _ _ _) as [[s2 rs] err].
Qed.

End MiddlewareMore.

Lemma body_write_keeps_the_charge_witness :
  out_store (@HttpMiddleware exampleLibs errHandler DefaultRequestCollector
               exampleMwEnv initState ∅ ∅ exampleRequest)
  = exampleCharged.1.
Proof.
  pose proof (@body_write_keeps_the_charge exampleLibs errHandler
                DefaultRequestCollector exampleMwEnv initState ∅ ∅
                exampleRequest exampleCharged.1 exampleResult
                [WriteHeader 500] "boom"
                eq_refl eq_refl exampleCharged_eq) as Hw.
  assert (Hadm : res_Weight exampleResult <= res_Remaining exampleResult)
    by (cbn; lia).
  destruct (Hw Hadm eq_refl) as (_ & Hstore & _). exact Hstore.
Defined.

Lemma silent_handler_is_refunded_witness :
  delegatorStatus (silentHandler exampleRequest) = 0.
Proof.
  pose proof (@silent_handler_is_refunded exampleLibs silentHandler
                DefaultRequestCollector exampleMwEnv initState ∅ ∅
                exampleRequest exampleCharged.1 exampleResult
                eq_refl eq_refl exampleCharged_eq) as Hw.
  assert (Hadm : res_Weight exampleResult <= res_Remaining exampleResult)
    by (cbn; lia).
  destruct (Hw Hadm eq_refl) as (Hst & _). exact Hst.
Defined.

(** ** The rate-limit headers *)

Section Headers.
Context `{ExternalLibs}.

(** X3.  On every charged request, admitted or rejected, the response
    carries [X-RateLimit-Limit], [X-RateLimit-Remaining] and
    [X-RateLimit-Reset] with the reported values; the header of a window is
    present exactly when the limit of that window is positive, with that
    limit as value; [Retry-After] is present exactly on rejection and
    repeats the reset. *)
Theorem charged_response_headers :
  forall next sel e st store clients r store1 rl,
    sel r = true ->
    mw_redisIsHealthy e = true ->
    rateLimitRequest st store (mw_env e) r = (store1, Val rl) ->
    let evs := out_events (HttpMiddleware next sel e st store clients r) in
    let q := quotaOf st rl in
    headerOf HeaderRateLimitLimit evs = Some (fmt_d (res_Limit rl))
    /\ headerOf HeaderRateLimitRemaining evs = Some (fmt_d (res_Remaining rl))
    /\ headerOf HeaderRateLimitReset evs = Some (fmt_d (res_Reset rl))
    /\ headerOf HeaderRateLimitLimitSecond evs
       = (if 0 <? Second q then Some (fmt_d (Second q)) else None)
    /\ headerOf HeaderRateLimitLimitHour evs
       = (if 0 <? Hour q then Some (fmt_d (Hour q)) else None)
    /\ headerOf HeaderRateLimitLimitMonth evs
       = (if 0 <? Month q then Some (fmt_d (Month q)) else None)
    /\ headerOf HeaderRetryAfter evs
       = (if res_Remaining rl <? res_Weight rl
          then Some (fmt_d (res_Reset rl)) else None).
Proof.
  intros next sel e st store clients r store1 rl Hsel Hhealthy Hreq evs q.
  unfold evs.
  rewrite (HttpMiddleware_charged_outcome next sel e st store clients r store1 rl
             Hsel Hhealthy Hreq).
  unfold q, quotaOf. generalize (load (heap st) (res_RateLimit rl)). clear q.
  intros q. unfold rateLimitHeaders.
  destruct (res_Remaining rl <? res_Weight rl); cbn [out_events];
    match goal with
    | |- context [logPost ?x] => destruct x as [er |]
    end;
    destruct (0 <? Second q), (0 <? Hour q), (0 <? Month q);
    repeat split; reflexivity.
Qed.

End Headers.

Lemma charged_response_headers_witness :
  headerOf HeaderRateLimitLimitHour
    (out_events (@HttpMiddleware exampleLibs okHandler DefaultRequestCollector
                   exampleMwEnv initState ∅ ∅ exampleRequest))
  = Some "500".
Proof.
  destruct (@charged_response_headers exampleLibs okHandler
              DefaultRequestCollector exampleMwEnv initState ∅ ∅
              exampleRequest exampleCharged.1 exampleResult
              eq_refl eq_refl exampleCharged_eq)
    as (_ & _ & _ & _ & Hhour & _).
  exact Hhour.
Defined.

(** ** What the charge does to the store *)

Section ChargeEffects.
Implicit Types (s : gmap string redis.Entry) (k : string) (now : time.Time).

(** The entry of the per-second key after its two commands: the value is
    the counter plus the weight; the expiry is the one the key had, or one
    second from now for a key that had none. *)
Lemma run_second_entry now s k w s' rs :
  redis.run now s [redis.IncrBy k w; redis.ExpireNX k time.Second] = (s', rs) ->
  redis.firstErr rs = None ->
  s' !! k
  = Some {| redis.val := redis.counter now s k + w;
            redis.expire :=
              Some (match redis.live now s k with
                    | Some {| redis.expire := Some t |} => t
                    | _ => now + time.Second
                    end) |}.
Proof.
  cbn. intros Hrun Herr.
  pose proof (incrby_reply now s k w) as Hr.
  pose proof (incrby_live now s k w) as Hl.
  pose proof (incrby_lookup now s k w) as Hk.
  destruct (redis.incrby now s k w) as [s1 r1]. cbn in *.
  destruct (in_int64 (redis.counter now s k + w)) eqn:Hin; subst r1.
  2:{ destruct (redis.live now s1 k) as [e |]; [destruct (redis.expire e) |];
      inversion Hrun; subst; discriminate. }
  destruct (Hl eq_refl) as (ttl & Hlive & Httl). rewrite Hlive in Hrun.
  cbn in Hrun. specialize (Hk eq_refl).
  destruct (redis.live now s k) as [[v [t |]] |]; cbn in Httl; subst ttl;
    inversion Hrun; subst s' rs; clear Hrun.
  - exact Hk.
  - unfold redis.set_expiry. change (time.Second / time.Second) with 1.
    destruct (now + 1 * time.Second <=? now) eqn:Hle.
    + unfold time.Second in Hle. lia.
    + rewrite lookup_insert_eq. cbn. do 3 f_equal; lia.
  - unfold redis.set_expiry. change (time.Second / time.Second) with 1.
    destruct (now + 1 * time.Second <=? now) eqn:Hle.
    + unfold time.Second in Hle. lia.
    + rewrite lookup_insert_eq. cbn. do 3 f_equal; lia.
Qed.

(** Every command of the pipeline works on the key of an enforced window or
    on the stats key. *)
Lemma buildCharge_keys q env w kS kH kM ks :
  Forall (fun c =>
            (redis.cmdKey c = kS /\ (0 <? Second q) = true)
            \/ (redis.cmdKey c = kH /\ (0 <? Hour q) = true)
            \/ (redis.cmdKey c = kM /\ (0 <? Month q) = true)
            \/ redis.cmdKey c = ks)
         (ch_cmds (buildCharge q env w kS kH kM ks)).
Proof.
  destruct (buildCharge_shape q env w kS kH kM ks) as (-> & _).
  unfold secondSegment, hourSegment, monthSegment.
  destruct (0 <? Second q), (0 <? Hour q), (0 <? Month q);
    repeat first [ apply List.Forall_nil
                 | apply List.Forall_cons; [cbn; auto 10 |] ].
Qed.

End ChargeEffects.

Section ChargeTheorems.
Context `{ExternalLibs}.

(** The pipeline a charged request ran, in terms of its result. *)
Lemma rateLimitRequest_pipeline st store env r store1 rl :
  rateLimitRequest st store env r = (store1, Val rl) ->
  exists replies,
    redis.run (env_redisNow env) store
      (ch_cmds (buildCharge (quotaOf st rl) env (res_Weight rl)
                  (secondKeyOf rl) (hourKeyOf rl) (monthKeyOf rl)
                  (res_RedisStatsKey rl)))
    = (store1, replies)
    /\ redis.firstErr replies = None
    /\ res_Time rl = env_start env
    /\ res_RedisStatsKey rl
       = statsKey (env_start env) (res_IsValidKey rl) (res_UserId rl)
           (res_Route rl).
Proof.
  intros Hrun.
  destruct (rateLimitRequest_Val _ _ _ _ _ _ Hrun)
    as (key & ip & userId & isValidKey & rateLimit & weight & route & bucket
        & replies & Hkey & Hlook & Hweight & Hconn & Hexec & Herr & Hrl).
  set (q0 := load (heap st) rateLimit) in *.
  set (charge := requestCharge q0 env weight route bucket userId isValidKey) in *.
  set (res0 := chargedResult env key ip userId isValidKey rateLimit weight
                 route bucket charge) in *.
  destruct (checkWindows_fields q0
              (cmdVal replies (ch_rateLimitSecond charge))
              (cmdVal replies (ch_rateLimitHour charge))
              (cmdVal replies (ch_rateLimitMonth charge))
              (time.Sub (nextHourUtc env) (env_start env))
              (time.Sub (nextMonthUtc env) (env_start env)) res0)
    as (FT & FW & FR & FV & FU & FK & FS & FL & FB).
  rewrite <- Hrl in FT, FW, FR, FV, FU, FK, FS, FL, FB.
  cbn in FT, FW, FR, FV, FU, FK, FS, FL, FB.
  exists replies.
  unfold quotaOf, secondKeyOf, hourKeyOf, monthKeyOf.
  rewrite FT, FW, FU, FS, FL, FB, FV, FR. fold q0.
  unfold charge, requestCharge in Hexec. auto.
Qed.

(** The entries a charged request leaves in the store. *)
Lemma charged_entries st store env r store1 rl :
  rateLimitRequest st store env r = (store1, Val rl) ->
  let q := quotaOf st rl in
  let w := res_Weight rl in
  let t1 := env_redisNow env in
  ((0 <? Second q) = true ->
   store1 !! secondKeyOf rl
   = Some {| redis.val := redis.counter t1 store (secondKeyOf rl) + w;
             redis.expire :=
               Some (match redis.live t1 store (secondKeyOf rl) with
                     | Some {| redis.expire := Some t |} => t
                     | _ => t1 + time.Second
                     end) |})
  /\ ((0 <? Hour q) = true -> t1 < hourExpireAt env ->
      store1 !! hourKeyOf rl
      = Some {| redis.val := redis.counter t1 store (hourKeyOf rl) + w;
                redis.expire := Some (hourExpireAt env) |})
  /\ ((0 <? Month q) = true -> t1 < monthExpireAt env ->
      store1 !! monthKeyOf rl
      = Some {| redis.val := redis.counter t1 store (monthKeyOf rl) + w;
                redis.expire := Some (monthExpireAt env) |})
  /\ redis.live t1 store1 (res_RedisStatsKey rl)
     = Some {| redis.val := redis.counter t1 store (res_RedisStatsKey rl) + 1;
               redis.expire :=
                 match redis.live t1 store (res_RedisStatsKey rl) with
                 | Some e => redis.expire e
                 | None => None
                 end |}
  /\ (forall k,
        ((0 <? Second q) = true -> k <> secondKeyOf rl) ->
        ((0 <? Hour q) = true -> k <> hourKeyOf rl) ->
        ((0 <? Month q) = true -> k <> monthKeyOf rl) ->
        k <> res_RedisStatsKey rl ->
        store1 !! k = store !! k).
Proof.
  intros Hreq q w t1.
  destruct (rateLimitRequest_pipeline st store env r store1 rl Hreq)
    as (replies & Hrun & Herr & Htime & Hstats).
  fold q w t1 in Hrun.
  assert (NHs : hourKeyOf rl <> res_RedisStatsKey rl)
    by (rewrite Hstats; apply hourKeyOf_statsKey).
  assert (NMs : monthKeyOf rl <> res_RedisStatsKey rl)
    by (rewrite Hstats; apply monthKeyOf_statsKey).
  assert (NSs : res_RedisStatsKey rl <> secondKeyOf rl)
    by (rewrite Hstats; apply statsKey_secondKeyOf).
  pose proof (hourKeyOf_monthKeyOf rl) as NHM.
  pose proof (hourKeyOf_secondKeyOf rl) as NHS.
  pose proof (monthKeyOf_secondKeyOf rl) as NMS.
  pose proof (hourExpireAt_whole env) as WH.
  pose proof (monthExpireAt_whole env) as WM.
  pose proof (buildCharge_keys q env w (secondKeyOf rl) (hourKeyOf rl)
                (monthKeyOf rl) (res_RedisStatsKey rl)) as Hkeys.
  clear Hstats Htime Hreq.
  revert Hrun Hkeys NHs NMs NSs NHM NHS NMS.
  generalize (secondKeyOf rl) (hourKeyOf rl) (monthKeyOf rl)
    (res_RedisStatsKey rl).
  intros kS kH kM ks Hrun Hkeys NHs NMs NSs NHM NHS NMS.
  destruct (charge_run q env w kS kH kM ks t1 store store1 replies
              ltac:(congruence) ltac:(congruence) ltac:(congruence)
              NHM NHs NMs Hrun Herr) as (VS & VH & VM & Vst & VkS).
  split; [| split; [| split; [| split]]].
  - intros ES.
    destruct (redis.run t1 store [redis.IncrBy kS w; redis.ExpireNX kS time.Second])
      as [s1 r1] eqn:E1.
    assert (Herr1 : redis.firstErr r1 = None).
    { destruct (buildCharge_shape q env w kS kH kM ks) as (Hc & _).
      rewrite Hc in Hrun. unfold secondSegment in Hrun. rewrite ES in Hrun.
      rewrite run_app, E1 in Hrun.
      destruct (redis.run t1 s1 _) as [s2 r2]. inversion Hrun; subst.
      by apply firstErr_app in Herr as [? _]. }
    pose proof (run_second_entry t1 store kS w s1 r1 E1 Herr1) as He.
    rewrite VkS. unfold secondSegment. rewrite ES, E1. exact He.
  - intros E Hfut. destruct (VH E) as (_ & _ & He). rewrite WH in He.
    by apply He.
  - intros E Hfut. destruct (VM E) as (_ & _ & He). rewrite WM in He.
    by apply He.
  - exact Vst.
  - intros k HS HH HM Hs.
    assert (Hall : Forall (fun c => redis.cmdKey c <> k)
                     (ch_cmds (buildCharge q env w kS kH kM ks))).
    { eapply Forall_impl; [exact Hkeys |]. cbn beta. intros c Hc Ek.
      destruct Hc as [[Ec E] | [[Ec E] | [[Ec E] | Ec]]].
      - apply (HS E). congruence.
      - apply (HH E). congruence.
      - apply (HM E). congruence.
      - apply Hs. congruence. }
    pose proof (run_other t1 _ store k Hall) as Ho.
    by rewrite Hrun in Ho.
Qed.

(** X4.  A pipeline that goes through charges every enforced window by the
    weight of the request, whether the request is then admitted or rejected,
    and counts the request once in the stats key; no other key of the store
    is touched, in particular not the key of a window that is not
    enforced. *)
Theorem charge_is_exact :
  forall st store env r store1 rl,
    rateLimitRequest st store env r = (store1, Val rl) ->
    let q := quotaOf st rl in
    let w := res_Weight rl in
    let t1 := env_redisNow env in
    (0 < Second q ->
     redis.counter t1 store1 (secondKeyOf rl)
     = redis.counter t1 store (secondKeyOf rl) + w)
    /\ (0 < Hour q -> t1 < hourExpireAt env ->
        redis.counter t1 store1 (hourKeyOf rl)
        = redis.counter t1 store (hourKeyOf rl) + w)
    /\ (0 < Month q -> t1 < monthExpireAt env ->
        redis.counter t1 store1 (monthKeyOf rl)
        = redis.counter t1 store (monthKeyOf rl) + w)
    /\ redis.counter t1 store1 (res_RedisStatsKey rl)
       = redis.counter t1 store (res_RedisStatsKey rl) + 1
    /\ (Second q <= 0 -> store1 !! secondKeyOf rl = store !! secondKeyOf rl)
    /\ (Hour q <= 0 -> store1 !! hourKeyOf rl = store !! hourKeyOf rl)
    /\ (Month q <= 0 -> store1 !! monthKeyOf rl = store !! monthKeyOf rl)
    /\ (forall k,
          k <> secondKeyOf rl -> k <> hourKeyOf rl -> k <> monthKeyOf rl ->
          k <> res_RedisStatsKey rl ->
          store1 !! k = store !! k).
Proof.
  intros st store env r store1 rl Hreq q w t1.
  destruct (charged_entries st store env r store1 rl Hreq)
    as (ES & EH & EM & Est & Hframe).
  fold q w t1 in ES, EH, EM, Est, Hframe.
  destruct (rateLimitRequest_pipeline st store env r store1 rl Hreq)
    as (_ & _ & _ & _ & Hstats).
  assert (NHs : hourKeyOf rl <> res_RedisStatsKey rl)
    by (rewrite Hstats; apply hourKeyOf_statsKey).
  assert (NMs : monthKeyOf rl <> res_RedisStatsKey rl)
    by (rewrite Hstats; apply monthKeyOf_statsKey).
  assert (NSs : res_RedisStatsKey rl <> secondKeyOf rl)
    by (rewrite Hstats; apply statsKey_secondKeyOf).
  pose proof (hourKeyOf_monthKeyOf rl) as NHM.
  pose proof (hourKeyOf_secondKeyOf rl) as NHS.
  pose proof (monthKeyOf_secondKeyOf rl) as NMS.
  clear Hstats Hreq.
  revert ES EH EM Est Hframe NHs NMs NSs NHM NHS NMS.
  generalize (secondKeyOf rl) (hourKeyOf rl) (monthKeyOf rl)
    (res_RedisStatsKey rl) (hourExpireAt env) (monthExpireAt env).
  intros kS kH kM ks tH tM ES EH EM Est Hframe NHs NMs NSs NHM NHS NMS.
  split; [| split; [| split; [| split; [| split; [| split; [| split]]]]]].
  - intros HS. assert (E : (0 <? Second q) = true) by lia.
    unfold redis.counter at 1.
    rewrite (live_intro t1 store1 kS _ (ES E)); [reflexivity |].
    cbn. destruct (redis.live t1 store kS) as [[v [t |]] |] eqn:El.
    + by destruct (live_Some t1 store kS _ El) as [_ Ht].
    + unfold time.Second. lia.
    + unfold time.Second. lia.
  - intros HH Hfut. assert (E : (0 <? Hour q) = true) by lia.
    unfold redis.counter at 1.
    by rewrite (live_intro t1 store1 kH _ (EH E Hfut)) by exact Hfut.
  - intros HM Hfut. assert (E : (0 <? Month q) = true) by lia.
    unfold redis.counter at 1.
    by rewrite (live_intro t1 store1 kM _ (EM E Hfut)) by exact Hfut.
  - unfold redis.counter at 1. by rewrite Est.
  - intros HS. apply Hframe; [lia | congruence | congruence | congruence].
  - intros HH. apply Hframe; [congruence | lia | congruence | congruence].
  - intros HM. apply Hframe; [congruence | congruence | lia | congruence].
  - intros k N1 N2 N3 N4. apply Hframe; auto.
Qed.

(** X5.  The lifetimes the charge gives to its keys.  The per-second key
    keeps the expiry it had when it was already counting and otherwise
    expires one second after the charge, so that a window lasts one second
    from its first request; the hour and month keys expire sixty seconds
    after the end of their window; the stats key never gets an expiry from
    the pipeline. *)
Theorem charge_sets_lifetimes :
  forall st store env r store1 rl,
    rateLimitRequest st store env r = (store1, Val rl) ->
    let q := quotaOf st rl in
    let t1 := env_redisNow env in
    (0 < Second q ->
     redis.expire <$> store1 !! secondKeyOf rl
     = Some (Some (match redis.live t1 store (secondKeyOf rl) with
                   | Some {| redis.expire := Some t |} => t
                   | _ => t1 + time.Second
                   end)))
    /\ (0 < Hour q -> t1 < hourExpireAt env ->
        redis.expire <$> store1 !! hourKeyOf rl
        = Some (Some (time.Add (time.Add (time.Truncate (env_now env) time.Hour)
                                  time.Hour) (60 * time.Second))))
    /\ (0 < Month q -> t1 < monthExpireAt env ->
        redis.expire <$> store1 !! monthKeyOf rl
        = Some (Some (time.Add (nextMonthUtc env) (60 * time.Second))))
    /\ (redis.live t1 store (res_RedisStatsKey rl) = None ->
        redis.expire <$> redis.live t1 store1 (res_RedisStatsKey rl)
        = Some None).
Proof.
  intros st store env r store1 rl Hreq q t1.
  destruct (charged_entries st store env r store1 rl Hreq)
    as (ES & EH & EM & Est & _).
  fold q t1 in ES, EH, EM, Est.
  split; [| split; [| split]].
  - intros HS. assert (E : (0 <? Second q) = true) by lia.
    by rewrite (ES E).
  - intros HH Hfut. assert (E : (0 <? Hour q) = true) by lia.
    rewrite (EH E Hfut). reflexivity.
  - intros HM Hfut. assert (E : (0 <? Month q) = true) by lia.
    rewrite (EM E Hfut). reflexivity.
  - intros Hnone. rewrite Est, Hnone. reflexivity.
Qed.

End ChargeTheorems.

Lemma charge_is_exact_witness :
  redis.counter (env_redisNow exampleEnv) exampleCharged.1 (hourKeyOf exampleResult)
  = redis.counter (env_redisNow exampleEnv) ∅ (hourKeyOf exampleResult)
    + res_Weight exampleResult.
Proof.
  destruct (@charge_is_exact exampleLibs initState ∅ exampleEnv exampleRequest
              exampleCharged.1 exampleResult exampleCharged_eq)
    as (_ & Hhour & _).
  apply Hhour; vm_compute; reflexivity.
Defined.

Lemma charge_sets_lifetimes_witness :
  redis.expire <$> exampleCharged.1 !! secondKeyOf exampleResult
  = Some (Some (env_redisNow exampleEnv + time.Second)).
Proof.
  destruct (@charge_sets_lifetimes exampleLibs initState ∅ exampleEnv
              exampleRequest exampleCharged.1 exampleResult exampleCharged_eq)
    as (Hsecond & _).
  apply Hsecond. vm_compute. reflexivity.
Defined.

(** ** Who is charged, and what is reported *)

Lemma checkWindows_caller q vS vH vM dH dM res :
  let rl := checkWindows q vS vH vM dH dM res in
  res_IP rl = res_IP res /\ res_Key rl = res_Key res.
Proof.
  unfold checkWindows.
  repeat match goal with
         | |- context [if ?b then _ else _] => destruct b
         end; cbn; auto.
Qed.

Lemma recordStage_report limit v reset name res :
  report (recordStage limit v reset name res)
  = recordWindow (report res) (limit, v, reset, name).
Proof.
  unfold recordStage, recordWindow, report. cbn [fst snd].
  by destruct ((0 <? limit) && (res_Limit res <? sub64 limit v)).
Qed.

Lemma checkWindows_stages q vS vH vM dH dM res :
  exceeded (Second q) vS = false ->
  exceeded (Hour q) vH = false ->
  exceeded (Month q) vM = false ->
  checkWindows q vS vH vM dH dM res
  = recordStage (Month q) vM (time.SecondsInt64 dM) MonthTimeWindow
      (recordStage (Hour q) vH (time.SecondsInt64 dH) HourTimeWindow
         (recordStage (Second q) vS 1 SecondTimeWindow res)).
Proof.
  unfold exceeded, checkWindows, recordStage. by intros -> -> ->.
Qed.

(** Without an exceeded window, the report is the fold of [recordWindow]
    over the three windows. *)
Lemma checkWindows_report q vS vH vM dH dM res :
  exceeded (Second q) vS = false ->
  exceeded (Hour q) vH = false ->
  exceeded (Month q) vM = false ->
  report (checkWindows q vS vH vM dH dM res)
  = fold_left recordWindow (windowsOf q vS vH vM dH dM) (report res).
Proof.
  intros XS XH XM. rewrite checkWindows_stages by assumption.
  rewrite !recordStage_report. reflexivity.
Qed.

(** The first exceeded window, in the order second, hour, month, is
    reported with nothing remaining. *)
Lemma checkWindows_exceeded q vS vH vM dH dM res :
  (exceeded (Second q) vS = true ->
   report (checkWindows q vS vH vM dH dM res)
   = (Second q, 0, 1, SecondTimeWindow))
  /\ (exceeded (Second q) vS = false -> exceeded (Hour q) vH = true ->
      report (checkWindows q vS vH vM dH dM res)
      = (Hour q, 0, time.SecondsInt64 dH, HourTimeWindow))
  /\ (exceeded (Second q) vS = false -> exceeded (Hour q) vH = false ->
      exceeded (Month q) vM = true ->
      report (checkWindows q vS vH vM dH dM res)
      = (Month q, 0, time.SecondsInt64 dM, MonthTimeWindow)).
Proof.
  unfold exceeded, checkWindows, report.
  split; [| split].
  - intros ->. reflexivity.
  - intros -> ->. reflexivity.
  - intros -> -> ->. reflexivity.
Qed.

Section Reporting.
Context `{ExternalLibs}.

(** The caller of a charged request, as the tables see it. *)
Lemma rateLimitRequest_caller st store env r store1 rl :
  rateLimitRequest st store env r = (store1, Val rl) ->
  getKey r = (res_Key rl, res_IP rl)
  /\ lookupCaller st (res_Key rl)
     = (res_UserId rl, res_IsValidKey rl, res_RateLimit rl)
  /\ getWeight st r = Val (res_Weight rl, res_Route rl, res_Bucket rl)
  /\ res_Time rl = env_start env.
Proof.
  intros Hrun.
  destruct (rateLimitRequest_Val _ _ _ _ _ _ Hrun)
    as (key & ip & userId & isValidKey & rateLimit & weight & route & bucket
        & replies & Hkey & Hlook & Hweight & Hconn & Hexec & Herr & Hrl).
  cbv zeta in Hrl.
  match type of Hrl with
  | rl = checkWindows ?q ?a ?b ?c ?d ?e ?res =>
      destruct (checkWindows_fields q a b c d e res)
        as (FT & FW & FR & FV & FU & FK & FS & FL & FB);
      destruct (checkWindows_caller q a b c d e res) as (FI & FY)
  end.
  rewrite <- Hrl in FT, FW, FR, FV, FU, FK, FS, FL, FB, FI, FY.
  cbn in FT, FW, FR, FV, FU, FK, FS, FL, FB, FI, FY.
  rewrite FT, FW, FR, FV, FU, FL, FB, FI, FY. auto.
Qed.

(** X6.  Callers that present no known key are all charged as the user -1
    against the no-key quota: two such requests to the same bucket started
    at the same instant work on the same second, hour and month keys,
    whatever their addresses and whatever unknown keys they present. *)
Theorem unknown_callers_share_counters :
  forall st store env r store1 rl store' env' r' store1' rl',
    rateLimitRequest st store env r = (store1, Val rl) ->
    rateLimitRequest st store' env' r' = (store1', Val rl') ->
    userIdByApiKey st !! (getKey r).1 = None ->
    userIdByApiKey st !! (getKey r').1 = None ->
    res_UserId rl = -1
    /\ res_IsValidKey rl = false
    /\ res_RateLimit rl = NoKeyRateLimit st
    /\ res_RateLimit rl' = res_RateLimit rl
    /\ (res_Bucket rl = res_Bucket rl' ->
        secondKeyOf rl = secondKeyOf rl'
        /\ (env_start env = env_start env' ->
            hourKeyOf rl = hourKeyOf rl' /\ monthKeyOf rl = monthKeyOf rl')).
Proof.
  intros st store env r store1 rl store' env' r' store1' rl' Hreq Hreq' Hk Hk'.
  destruct (rateLimitRequest_caller _ _ _ _ _ _ Hreq) as (Gk & Lk & _ & Tk).
  destruct (rateLimitRequest_caller _ _ _ _ _ _ Hreq') as (Gk' & Lk' & _ & Tk').
  rewrite Gk in Hk. rewrite Gk' in Hk'. cbn [fst] in Hk, Hk'.
  unfold lookupCaller in Lk, Lk'. rewrite Hk in Lk. rewrite Hk' in Lk'.
  inversion Lk as [[Hu Hv Hp]]. inversion Lk' as [[Hu' Hv' Hp']].
  split; [done |]. split; [done |]. split; [done |]. split; [done |].
  intros Hb. unfold secondKeyOf, hourKeyOf, monthKeyOf.
  rewrite <- Hu, <- Hu', Hb, Tk, Tk'. split; [done |]. by intros ->.
Qed.

(** X7.  When no enforced window is exceeded, the reported limit,
    remaining, reset and window are those of the last window, in the order
    second, hour, month, that is enforced and whose remaining is above the
    limit recorded before it (nothing is recorded at the start).  So a month
    window whose remaining is above the limits of the second and hour
    windows is the one reported, however little the other windows have
    left. *)
Theorem report_is_last_recorded_window :
  forall st store env r store1 rl,
    rateLimitRequest st store env r = (store1, Val rl) ->
    let q := quotaOf st rl in
    let w := res_Weight rl in
    let vS := postIncrement env store (secondKeyOf rl) w in
    let vH := postIncrement env store (hourKeyOf rl) w in
    let vM := postIncrement env store (monthKeyOf rl) w in
    let dH := time.Sub (nextHourUtc env) (env_start env) in
    let dM := time.Sub (nextMonthUtc env) (env_start env) in
    exceeded (Second q) vS = false ->
    exceeded (Hour q) vH = false ->
    exceeded (Month q) vM = false ->
    report rl = fold_left recordWindow (windowsOf q vS vH vM dH dM) (0, 0, 0, "")
    /\ (0 < Month q -> 0 < sub64 (Month q) vM ->
        Second q < sub64 (Month q) vM -> Hour q < sub64 (Month q) vM ->
        report rl = (Month q, sub64 (Month q) vM, time.SecondsInt64 dM,
                     MonthTimeWindow)).
Proof.
  intros st store env r store1 rl Hreq q w vS vH vM dH dM XS XH XM.
  destruct (rateLimitRequest_charged st store env r store1 rl Hreq)
    as (res0 & Hrl & Hrep & _).
  fold q w vS vH vM dH dM in Hrl.
  assert (Hfold : report rl
                  = fold_left recordWindow (windowsOf q vS vH vM dH dM)
                      (0, 0, 0, "")).
  { rewrite <- Hrep, Hrl. by apply checkWindows_report. }
  split; [exact Hfold |].
  intros HM Hpos HSlt HHlt. rewrite Hfold.
  unfold windowsOf, recordWindow. cbn [fold_left fst snd].
  assert (EM : (0 <? Month q) = true) by lia.
  rewrite EM.
  repeat match goal with
         | |- context [if ?b then _ else _] =>
             lazymatch b with
             | context [if _ then _ else _] => fail
             | _ => destruct b eqn:?; cbn [fst snd andb] in *
             end
         end; first [reflexivity | lia].
Qed.

(** X8.  A window over its limit decides the report: the first such
    window, in the order second, hour, month, is reported with its limit and
    nothing remaining, and its reset is the one second of the second window
    or the whole seconds left until the hour or the month ends.  A request
    of positive weight is then answered 429. *)
Theorem exceeded_window_is_reported :
  forall next sel e st store clients r store1 rl,
    sel r = true ->
    mw_redisIsHealthy e = true ->
    rateLimitRequest st store (mw_env e) r = (store1, Val rl) ->
    let env := mw_env e in
    let q := quotaOf st rl in
    let w := res_Weight rl in
    let vS := postIncrement env store (secondKeyOf rl) w in
    let vH := postIncrement env store (hourKeyOf rl) w in
    let vM := postIncrement env store (monthKeyOf rl) w in
    let dH := time.Sub (nextHourUtc env) (env_start env) in
    let dM := time.Sub (nextMonthUtc env) (env_start env) in
    let out := HttpMiddleware next sel e st store clients r in
    (exceeded (Second q) vS = true ->
     report rl = (Second q, 0, 1, SecondTimeWindow))
    /\ (exceeded (Second q) vS = false -> exceeded (Hour q) vH = true ->
        report rl = (Hour q, 0, time.SecondsInt64 dH, HourTimeWindow))
    /\ (exceeded (Second q) vS = false -> exceeded (Hour q) vH = false ->
        exceeded (Month q) vM = true ->
        report rl = (Month q, 0, time.SecondsInt64 dM, MonthTimeWindow))
    /\ (exceeded (Second q) vS || exceeded (Hour q) vH || exceeded (Month q) vM
        = true ->
        0 < w ->
        res_Remaining rl = 0
        /\ rejected429 (out_events out) = true
        /\ handlerInvoked (out_events out) = false).
Proof.
  intros next sel e st store clients r store1 rl Hsel Hhealthy Hreq
    env q w vS vH vM dH dM out.
  destruct (rateLimitRequest_charged st store env r store1 rl Hreq)
    as (res0 & Hrl & _).
  fold q w vS vH vM dH dM in Hrl.
  destruct (checkWindows_exceeded q vS vH vM dH dM res0) as (CS & CH & CM).
  rewrite <- Hrl in CS, CH, CM.
  split; [exact CS |]. split; [exact CH |]. split; [exact CM |].
  intros Hany Hw.
  assert (Hrem : res_Remaining rl = 0).
  { destruct (exceeded (Second q) vS) eqn:XS.
    - specialize (CS eq_refl). by inversion CS.
    - destruct (exceeded (Hour q) vH) eqn:XH.
      + specialize (CH eq_refl eq_refl). by inversion CH.
      + destruct (exceeded (Month q) vM) eqn:XM; [| discriminate].
        specialize (CM eq_refl eq_refl eq_refl). by inversion CM. }
  split; [exact Hrem |].
  destruct (HttpMiddleware_charged next sel e st store clients r store1 rl
              Hsel Hhealthy Hreq) as (Hrej & Hinv & _).
  fold out in Hrej, Hinv. rewrite Hrej, Hinv.
  assert (Hlt : (res_Remaining rl <? res_Weight rl) = true) by (fold w; lia).
  by rewrite Hlt.
Qed.

End Reporting.

Lemma pair_of_snd {A B : Type} (p : A * B) (b : B) : p.2 = b -> p = (p.1, b).
Proof. destruct p. cbn. by intros ->. Qed.

Lemma otherCharged_eq :
  @rateLimitRequest exampleLibs initState ∅ exampleEnv otherRequest
  = ((@rateLimitRequest exampleLibs initState ∅ exampleEnv otherRequest).1,
     Val otherResult).
Proof. apply pair_of_snd. vm_compute. reflexivity. Qed.

Lemma busyCharged_eq :
  @rateLimitRequest exampleLibs initState busyStore exampleEnv exampleRequest
  = ((@rateLimitRequest exampleLibs initState busyStore exampleEnv
        exampleRequest).1,
     Val busyResult).
Proof. apply pair_of_snd. vm_compute. reflexivity. Qed.

Lemma unknown_callers_share_counters_witness :
  secondKeyOf exampleResult = secondKeyOf otherResult.
Proof.
  destruct (@unknown_callers_share_counters exampleLibs initState
              ∅ exampleEnv exampleRequest exampleCharged.1 exampleResult
              ∅ exampleEnv otherRequest _ otherResult
              exampleCharged_eq otherCharged_eq eq_refl eq_refl)
    as (_ & _ & _ & _ & Hkeys).
  exact (proj1 (Hkeys eq_refl)).
Defined.

Lemma report_is_last_recorded_window_witness :
  report exampleResult
  = fold_left recordWindow
      (windowsOf (quotaOf initState exampleResult)
         (postIncrement exampleEnv ∅ (secondKeyOf exampleResult)
            (res_Weight exampleResult))
         (postIncrement exampleEnv ∅ (hourKeyOf exampleResult)
            (res_Weight exampleResult))
         (postIncrement exampleEnv ∅ (monthKeyOf exampleResult)
            (res_Weight exampleResult))
         (time.Sub (nextHourUtc exampleEnv) (env_start exampleEnv))
         (time.Sub (nextMonthUtc exampleEnv) (env_start exampleEnv)))
      (0, 0, 0, "").
Proof.
  refine (proj1 (@report_is_last_recorded_window exampleLibs initState ∅
                   exampleEnv exampleRequest exampleCharged.1 exampleResult
                   exampleCharged_eq _ _ _)); vm_compute; reflexivity.
Defined.

Lemma exceeded_window_is_reported_witness :
  report busyResult = (2, 0, 1, SecondTimeWindow).
Proof.
  destruct (@exceeded_window_is_reported exampleLibs okHandler
              DefaultRequestCollector exampleMwEnv initState busyStore ∅
              exampleRequest _ busyResult eq_refl eq_refl busyCharged_eq)
    as (Hsecond & _).
  apply Hsecond. vm_compute. reflexivity.
Defined.

(** ** Bounds of the reported values *)

Lemma checkWindows_unfold q vS vH vM dH dM res :
  checkWindows q vS vH vM dH dM res
  = if exceeded (Second q) vS
    then setReport res (Second q) 0 1 SecondTimeWindow
    else
      let r1 := recordStage (Second q) vS 1 SecondTimeWindow res in
      if exceeded (Hour q) vH
      then setReport r1 (Hour q) 0 (time.SecondsInt64 dH) HourTimeWindow
      else
        let r2 := recordStage (Hour q) vH (time.SecondsInt64 dH)
                    HourTimeWindow r1 in
        if exceeded (Month q) vM
        then setReport r2 (Month q) 0 (time.SecondsInt64 dM) MonthTimeWindow
        else recordStage (Month q) vM (time.SecondsInt64 dM)
               MonthTimeWindow r2.
Proof. reflexivity. Qed.

Lemma wrap64_id (z : Z) : min_int64 <= z <= max_int64 -> wrap64 z = z.
Proof.
  unfold wrap64, min_int64, max_int64. intros Hz.
  rewrite Z.mod_small; lia.
Qed.

(** A result whose remaining lies between 0 and its limit and whose reset
    is not negative. *)
Lemma recordStage_bounds limit v reset name res :
  0 <= res_Remaining res <= res_Limit res ->
  0 <= res_Reset res ->
  exceeded limit v = false ->
  (0 < limit -> 0 <= v) ->
  limit <= max_int64 ->
  0 <= reset ->
  let res' := recordStage limit v reset name res in
  0 <= res_Remaining res' <= res_Limit res' /\ 0 <= res_Reset res'.
Proof.
  intros Hrem Hreset Hexc Hv Hmax Hr. unfold recordStage, exceeded in *.
  destruct (0 <? limit) eqn:El; cbn [andb] in *; [| auto].
  destruct (res_Limit res <? sub64 limit v) eqn:Eu; [| auto].
  cbn. unfold sub64 in *.
  rewrite wrap64_id in * by (unfold min_int64, max_int64 in *; lia).
  lia.
Qed.

Lemma exceeded_bounds limit v reset name res :
  exceeded limit v = true ->
  0 <= reset ->
  let res' := setReport res limit 0 reset name in
  0 <= res_Remaining res' <= res_Limit res' /\ 0 <= res_Reset res'.
Proof. unfold exceeded. intros Hexc Hr. cbn. lia. Qed.

Lemma nextHour_after (env : Env) :
  env_start env <= env_now env ->
  0 < time.Sub (nextHourUtc env) (env_start env).
Proof.
  unfold nextHourUtc, time.Sub, time.Add, time.Truncate, time.Hour, time.Second.
  intros Hle.
  pose proof (Z.mod_pos_bound (env_now env) (3600 * 1000000000) ltac:(lia)).
  lia.
Qed.

Lemma SecondsInt64_nonneg (d : time.Duration) : 0 <= d -> 0 <= time.SecondsInt64 d.
Proof.
  intros Hd. unfold time.SecondsInt64, time.Second. apply Z.quot_pos; lia.
Qed.

Lemma report_inv res a b c d :
  report res = (a, b, c, d) ->
  res_Limit res = a /\ res_Remaining res = b /\ res_Reset res = c
  /\ res_Window res = d.
Proof. unfold report. intros E. by inversion E. Qed.

Section Bounds.
Context `{ExternalLibs}.

(** X9.  When the counter of every enforced window stands exactly at its
    limit after the increment, and so also when no window is enforced at
    all, nothing is recorded: the report stays at limit 0, remaining 0,
    reset 0 and no window, and a request of positive weight is answered
    429 without the wrapped handler being called. *)
Theorem exactly_at_limit_is_rejected :
  forall next sel e st store clients r store1 rl,
    sel r = true ->
    mw_redisIsHealthy e = true ->
    rateLimitRequest st store (mw_env e) r = (store1, Val rl) ->
    let env := mw_env e in
    let q := quotaOf st rl in
    let w := res_Weight rl in
    let out := HttpMiddleware next sel e st store clients r in
    (0 < Second q -> postIncrement env store (secondKeyOf rl) w = Second q) ->
    (0 < Hour q -> postIncrement env store (hourKeyOf rl) w = Hour q) ->
    (0 < Month q -> postIncrement env store (monthKeyOf rl) w = Month q) ->
    0 < w ->
    report rl = (0, 0, 0, "")
    /\ rejected429 (out_events out) = true
    /\ handlerInvoked (out_events out) = false
    /\ headerOf HeaderRateLimitLimit (out_events out) = Some "0".
Proof.
  intros next sel e st store clients r store1 rl Hsel Hhealthy Hreq
    env q w out HS HH HM Hw.
  destruct (rateLimitRequest_charged st store env r store1 rl Hreq)
    as (res0 & Hrl & Hrep & _).
  fold q w in Hrl.
  set (vS := postIncrement env store (secondKeyOf rl) w) in *.
  set (vH := postIncrement env store (hourKeyOf rl) w) in *.
  set (vM := postIncrement env store (monthKeyOf rl) w) in *.
  clearbody vS vH vM.
  assert (Hblank : report rl = (0, 0, 0, "")).
  { rewrite Hrl. destruct (report_inv _ _ _ _ _ Hrep) as (HL & HR & HT & HW).
    rewrite checkWindows_stages.
    - unfold recordStage.
      assert (CS : (0 <? Second q) && (res_Limit res0 <? sub64 (Second q) vS)
                   = false).
      { destruct (0 <? Second q) eqn:E; [| done]. cbn.
        rewrite HS by lia. unfold sub64. rewrite Z.sub_diag, HL.
        reflexivity. }
      rewrite CS.
      assert (CH : (0 <? Hour q) && (res_Limit res0 <? sub64 (Hour q) vH)
                   = false).
      { destruct (0 <? Hour q) eqn:E; [| done]. cbn.
        rewrite HH by lia. unfold sub64. rewrite Z.sub_diag, HL.
        reflexivity. }
      rewrite CH.
      assert (CM : (0 <? Month q) && (res_Limit res0 <? sub64 (Month q) vM)
                   = false).
      { destruct (0 <? Month q) eqn:E; [| done]. cbn.
        rewrite HM by lia. unfold sub64. rewrite Z.sub_diag, HL.
        reflexivity. }
      rewrite CM. exact Hrep.
    - unfold exceeded. destruct (0 <? Second q) eqn:E; [| done].
      cbn. rewrite HS by lia. lia.
    - unfold exceeded. destruct (0 <? Hour q) eqn:E; [| done].
      cbn. rewrite HH by lia. lia.
    - unfold exceeded. destruct (0 <? Month q) eqn:E; [| done].
      cbn. rewrite HM by lia. lia. }
  split; [exact Hblank |].
  destruct (report_inv _ _ _ _ _ Hblank) as (HL & HR & HT & HW).
  destruct (HttpMiddleware_charged next sel e st store clients r store1 rl
              Hsel Hhealthy Hreq) as (Hrej & Hinv & _).
  destruct (charged_response_headers next sel e st store clients r store1 rl
              Hsel Hhealthy Hreq) as (Hlim & _).
  fold out in Hrej, Hinv, Hlim. rewrite Hrej, Hinv, Hlim, HL, HR.
  assert (Hlt : (0 <? res_Weight rl) = true) by (fold w; lia).
  rewrite Hlt. auto.
Qed.

(** X10.  For limits that fit 64 bits, counters that are not negative
    after the increment and a clock that does not run backwards between its
    two readings, the reported remaining lies between 0 and the reported
    limit, and the reported reset is not negative. *)
Theorem reported_values_are_bounded :
  forall st store env r store1 rl,
    rateLimitRequest st store env r = (store1, Val rl) ->
    let q := quotaOf st rl in
    let w := res_Weight rl in
    Second q <= max_int64 -> Hour q <= max_int64 -> Month q <= max_int64 ->
    (0 < Second q -> 0 <= postIncrement env store (secondKeyOf rl) w) ->
    (0 < Hour q -> 0 <= postIncrement env store (hourKeyOf rl) w) ->
    (0 < Month q -> 0 <= postIncrement env store (monthKeyOf rl) w) ->
    env_start env <= env_now env ->
    0 <= res_Remaining rl <= res_Limit rl /\ 0 <= res_Reset rl.
Proof.
  intros st store env r store1 rl Hreq q w MS MH MM PS PH PM Hclock.
  destruct (rateLimitRequest_charged st store env r store1 rl Hreq)
    as (res0 & Hrl & Hrep & _).
  fold q w in Hrl.
  set (vS := postIncrement env store (secondKeyOf rl) w) in *.
  set (vH := postIncrement env store (hourKeyOf rl) w) in *.
  set (vM := postIncrement env store (monthKeyOf rl) w) in *.
  clearbody vS vH vM.
  assert (HdH : 0 <= time.SecondsInt64 (time.Sub (nextHourUtc env) (env_start env))).
  { apply SecondsInt64_nonneg. pose proof (nextHour_after env Hclock). lia. }
  assert (HdM : 0 <= time.SecondsInt64 (time.Sub (nextMonthUtc env) (env_start env))).
  { apply SecondsInt64_nonneg. pose proof (nextMonth_after (env_start env)).
    unfold nextMonthUtc, time.Sub. lia. }
  revert Hrl HdH HdM.
  generalize (time.Sub (nextHourUtc env) (env_start env))
    (time.Sub (nextMonthUtc env) (env_start env)).
  intros dH dM Hrl HdH HdM.
  destruct (report_inv _ _ _ _ _ Hrep) as (HL & HR & HT & HW).
  assert (P0 : 0 <= res_Remaining res0 <= res_Limit res0 /\ 0 <= res_Reset res0)
    by lia.
  rewrite Hrl, checkWindows_unfold.
  destruct (exceeded (Second q) vS) eqn:XS;
    [eapply exceeded_bounds; [eassumption | first [lia | assumption]] |].
  destruct P0 as [P0a P0b].
  destruct (recordStage_bounds (Second q) vS 1 SecondTimeWindow res0
              P0a P0b XS PS MS ltac:(lia)) as [P1a P1b].
  cbv zeta.
  destruct (exceeded (Hour q) vH) eqn:XH;
    [eapply exceeded_bounds; [eassumption | first [lia | assumption]] |].
  destruct (recordStage_bounds (Hour q) vH _ HourTimeWindow _
              P1a P1b XH PH MH HdH) as [P2a P2b].
  destruct (exceeded (Month q) vM) eqn:XM;
    [eapply exceeded_bounds; [eassumption | first [lia | assumption]] |].
  exact (recordStage_bounds (Month q) vM _ MonthTimeWindow _
           P2a P2b XM PM MM HdM).
Qed.

End Bounds.

Lemma atLimitCharged_eq :
  @rateLimitRequest exampleLibs initState atLimitStore exampleEnv exampleRequest
  = ((@rateLimitRequest exampleLibs initState atLimitStore exampleEnv
        exampleRequest).1,
     Val atLimitResult).
Proof. apply pair_of_snd. vm_compute. reflexivity. Qed.

Lemma exactly_at_limit_is_rejected_witness :
  rejected429
    (out_events (@HttpMiddleware exampleLibs okHandler DefaultRequestCollector
                   exampleMwEnv initState atLimitStore ∅ exampleRequest))
  = true.
Proof.
  refine (proj1 (proj2
            (@exactly_at_limit_is_rejected exampleLibs okHandler
               DefaultRequestCollector exampleMwEnv initState atLimitStore ∅
               exampleRequest _ atLimitResult eq_refl eq_refl
               atLimitCharged_eq _ _ _ _))).
  - intros _. vm_compute. reflexivity.
  - intros _. vm_compute. reflexivity.
  - vm_compute. discriminate.
  - vm_compute. reflexivity.
Defined.

Lemma reported_values_are_bounded_witness :
  0 <= res_Remaining exampleResult <= res_Limit exampleResult
  /\ 0 <= res_Reset exampleResult.
Proof.
  apply (@reported_values_are_bounded exampleLibs initState ∅ exampleEnv
           exampleRequest exampleCharged.1 exampleResult exampleCharged_eq).
  - vm_compute. discriminate.
  - vm_compute. discriminate.
  - vm_compute. discriminate.
  - intros _. vm_compute. discriminate.
  - intros _. vm_compute. discriminate.
  - vm_compute. discriminate.
  - vm_compute. discriminate.
Defined.
